(** * httpstat: a shallow embedding of [main.go] and its specification

  The development follows the source file top to bottom: the helpers of
  Go's [strings] package that the program calls, the header comparator
  ([headers.Less]), the diagram renderer ([printTemplate]), the trace
  callbacks that fill a [Timing], the body reader ([readResponseBody]),
  the CA bundle loader ([readCACerts]), [parseURL], and finally the
  request loop of [visit] with its redirect counter.

  The modules after [Visit] go over the same functions again and prove
  more about them: the trace callbacks on any exchange, the number of
  requests of a run, [headerKeyValue] and the headers of [newRequest],
  the end of the loop of [printTemplate] and the width of what it
  prints, the order of the printed headers, the file name under [-O],
  the scheme [parseURL] returns, the TLS server name, [main], and the
  two diagrams of the program on wide values. *)

From Stdlib Require Import ZArith List String Ascii Bool Lia DecimalString.
From Stdlib Require Import Sorted Permutation.
From Stdlib Require DecimalFacts DecimalPos.
Import ListNotations.

Local Open Scope string_scope.
Local Open Scope Z_scope.

(** ** Go's [strings] helpers used by the program *)

Module GoStrings.

(** [strings.HasPrefix(s, p)] *)
Definition HasPrefix (s p : string) : bool := String.prefix p s.

(** [strings.HasSuffix(s, p)]: [p] is a tail of [s]. *)
Fixpoint HasSuffix (s p : string) : bool :=
  (s =? p)%string ||
  match s with
  | EmptyString => false
  | String _ s' => HasSuffix s' p
  end.

(** [strings.Contains(s, sub)] *)
Fixpoint Contains (s sub : string) : bool :=
  String.prefix sub s ||
  match s with
  | EmptyString => false
  | String _ s' => Contains s' sub
  end.

(** Go's [a < b] on strings: bytewise lexicographic order. *)
Definition lt (a b : string) : bool := String.ltb a b.

(** [strings.TrimLeft(s, cutset)] and [strings.TrimRight(s, cutset)] for a
    cutset of ASCII bytes. *)
Definition inCutset (cutset : string) (c : ascii) : bool :=
  existsb (Ascii.eqb c) (list_ascii_of_string cutset).

Fixpoint TrimLeft (s cutset : string) : string :=
  match s with
  | EmptyString => EmptyString
  | String c s' => if inCutset cutset c then TrimLeft s' cutset else s
  end.

Fixpoint TrimRight (s cutset : string) : string :=
  match s with
  | EmptyString => EmptyString
  | String c s' =>
      match TrimRight s' cutset with
      | EmptyString => if inCutset cutset c then EmptyString
                       else String c EmptyString
      | t => String c t
      end
  end.

(** [h[:i]] and [h[i:]] for [i := strings.Index(h, sep)], [sep] one byte;
    [None] when the index is [-1]. *)
Fixpoint cutAt (sep : ascii) (h : string) : option (string * string) :=
  match h with
  | EmptyString => None
  | String c h' =>
      if Ascii.eqb c sep then Some (EmptyString, h)
      else match cutAt sep h' with
           | Some (l, r) => Some (String c l, r)
           | None => None
           end
  end.

Lemma HasSuffix_iff s p :
  HasSuffix s p = true <-> exists pre, s = pre ++ p.
Proof.
  induction s as [|c s IH]; cbn [HasSuffix].
  - rewrite Bool.orb_false_r, String.eqb_eq. split.
    + intros <-. now exists "".
    + intros [[|d pre] H]; simpl in H; [auto | discriminate].
  - rewrite Bool.orb_true_iff, String.eqb_eq, IH. split.
    + intros [<-|[pre ->]]; [now exists "" | now exists (String c pre)].
    + intros [[|d pre] H]; simpl in H; [now left|].
      injection H as <- ->. right. now exists pre.
Qed.

Lemma ascii_compare_refl c : Ascii.compare c c = Eq.
Proof. unfold Ascii.compare. apply N.compare_refl. Qed.

Lemma ascii_compare_lt_trans a b c :
  Ascii.compare a b = Lt -> Ascii.compare b c = Lt -> Ascii.compare a c = Lt.
Proof.
  unfold Ascii.compare. rewrite !N.compare_lt_iff. apply N.lt_trans.
Qed.

Lemma compare_refl s : String.compare s s = Eq.
Proof.
  induction s as [|c s IH]; simpl; [reflexivity|].
  now rewrite ascii_compare_refl.
Qed.

Lemma lt_irrefl s : lt s s = false.
Proof. unfold lt, String.ltb. now rewrite compare_refl. Qed.

Lemma compare_lt_trans : forall a b c,
  String.compare a b = Lt -> String.compare b c = Lt -> String.compare a c = Lt.
Proof.
  induction a as [|x a IH]; intros [|y b] [|z c]; simpl; try congruence.
  destruct (Ascii.compare x y) eqn:Exy; try discriminate;
    destruct (Ascii.compare y z) eqn:Eyz; try discriminate; intros Hab Hbc.
  - apply Ascii.compare_eq_iff in Exy, Eyz. subst.
    rewrite ascii_compare_refl. eapply IH; eassumption.
  - apply Ascii.compare_eq_iff in Exy. subst. now rewrite Eyz.
  - apply Ascii.compare_eq_iff in Eyz. subst. now rewrite Exy.
  - now rewrite (ascii_compare_lt_trans _ _ _ Exy Eyz).
Qed.

Lemma lt_true_iff a b : lt a b = true <-> String.compare a b = Lt.
Proof.
  unfold lt, String.ltb. destruct (String.compare a b); split; congruence.
Qed.

Lemma lt_trans a b c : lt a b = true -> lt b c = true -> lt a c = true.
Proof. rewrite !lt_true_iff. apply compare_lt_trans. Qed.

Lemma lt_asym a b : lt a b = true -> lt b a = false.
Proof.
  unfold lt, String.ltb. rewrite (String.compare_antisym b a).
  destruct (String.compare a b); simpl; congruence.
Qed.

Lemma lt_connex a b : a <> b -> lt a b = true \/ lt b a = true.
Proof.
  intros Hne. unfold lt, String.ltb. rewrite (String.compare_antisym b a).
  destruct (String.compare a b) eqn:E; simpl; auto.
  apply String.compare_eq_iff in E. contradiction.
Qed.

End GoStrings.

(** ** The header comparator: [type headers []string] and [headers.Less] *)

Module Headers.

Definition headers := list string.

(** The closure [endtoend] inside [Less]: the [switch] lists the eight
    hop-by-hop names of RFC 2616, section 13.5.1. *)
Definition endtoend (n : string) : bool :=
  if (n =? "Connection")%string
     || (n =? "Keep-Alive")%string
     || (n =? "Proxy-Authenticate")%string
     || (n =? "Proxy-Authorization")%string
     || (n =? "TE")%string
     || (n =? "Trailers")%string
     || (n =? "Transfer-Encoding")%string
     || (n =? "Upgrade")%string
  then false
  else true.

(** The body of [Less] once [a, b := h[i], h[j]] are read. *)
Definition lessNames (a b : string) : bool :=
  if (a =? "Server")%string then true
  else if (b =? "Server")%string then false
  else
    let x := endtoend a in
    let y := endtoend b in
    if Bool.eqb x y then GoStrings.lt a b else x.

(** [func (h headers) Less(i, j int) bool]; an index out of range panics
    in Go, which is [None] here. *)
Definition Less (h : headers) (i j : nat) : option bool :=
  match nth_error h i, nth_error h j with
  | Some a, Some b => Some (lessNames a b)
  | _, _ => None
  end.

(** The names the spec calls hop-by-hop. *)
Definition hopByHop : list string :=
  [ "Connection"; "Keep-Alive"; "Proxy-Authenticate"; "Proxy-Authorization";
    "TE"; "Trailers"; "Transfer-Encoding"; "Upgrade" ].

(** The order on names that the comparator induces once equal names are
    related: [a] is displayed no later than [b]. *)
Definition headerLe (a b : string) : bool :=
  (a =? b)%string || lessNames a b.

(** *** Properties of the comparator *)

Lemma lessNames_Server_first b : lessNames "Server" b = true.
Proof. reflexivity. Qed.

Lemma lessNames_not_Server a b :
  a <> "Server" ->
  lessNames a b =
    if (b =? "Server")%string then false
    else if Bool.eqb (endtoend a) (endtoend b) then GoStrings.lt a b
         else endtoend a.
Proof.
  intros Ha. unfold lessNames.
  apply String.eqb_neq in Ha. now rewrite Ha.
Qed.

Lemma endtoend_Server : endtoend "Server" = true.
Proof. reflexivity. Qed.

Lemma endtoend_false_iff n : endtoend n = false <-> In n hopByHop.
Proof.
  unfold endtoend, hopByHop. split.
  - intros H.
    repeat match type of H with
    | context [(n =? ?k)%string] =>
        destruct (String.eqb n k) eqn:E;
          [apply String.eqb_eq in E; rewrite E; simpl;
           repeat ((left; reflexivity) || right)|clear E]
    end.
    simpl in H. discriminate H.
  - simpl. intros H.
    repeat (destruct H as [<-|H]; [reflexivity|]). contradiction.
Qed.

Lemma lessNames_irrefl a : a <> "Server" -> lessNames a a = false.
Proof.
  intros Ha. rewrite (lessNames_not_Server a a Ha).
  apply String.eqb_neq in Ha. rewrite Ha, Bool.eqb_reflx.
  apply GoStrings.lt_irrefl.
Qed.

Lemma lessNames_antisym a b :
  lessNames a b = true -> lessNames b a = true -> a = b.
Proof.
  unfold lessNames.
  destruct (String.eqb_spec a "Server") as [->|Ha];
    destruct (String.eqb_spec b "Server") as [->|Hb]; try congruence.
  destruct (endtoend a), (endtoend b); simpl; try congruence;
    intros Hab Hba; apply GoStrings.lt_asym in Hab; congruence.
Qed.

Lemma lessNames_trans a b c :
  lessNames a b = true -> lessNames b c = true -> lessNames a c = true.
Proof.
  unfold lessNames.
  destruct (String.eqb_spec a "Server") as [->|Ha]; [reflexivity|].
  destruct (String.eqb_spec b "Server") as [->|Hb]; [discriminate|].
  destruct (String.eqb_spec c "Server") as [->|Hc]; [congruence|].
  destruct (endtoend a), (endtoend b), (endtoend c); simpl; try congruence;
    apply GoStrings.lt_trans.
Qed.

Lemma lessNames_connex a b :
  a <> b -> lessNames a b = true \/ lessNames b a = true.
Proof.
  intros Hne. unfold lessNames.
  destruct (String.eqb_spec a "Server") as [->|Ha]; [now left|].
  destruct (String.eqb_spec b "Server") as [->|Hb]; [now right|].
  destruct (endtoend a), (endtoend b); simpl; auto;
    now apply GoStrings.lt_connex.
Qed.

Lemma headerLe_iff a b : headerLe a b = true <-> a = b \/ lessNames a b = true.
Proof.
  unfold headerLe. rewrite Bool.orb_true_iff, String.eqb_eq. tauto.
Qed.

Lemma headerLe_trans a b c :
  headerLe a b = true -> headerLe b c = true -> headerLe a c = true.
Proof.
  rewrite !headerLe_iff. intros [->|Hab] [->|Hbc]; auto.
  right. eapply lessNames_trans; eassumption.
Qed.

Lemma headerLe_total a b : headerLe a b = true \/ headerLe b a = true.
Proof.
  rewrite !headerLe_iff.
  destruct (string_dec a b) as [->|Hne]; [now left; left|].
  destruct (lessNames_connex a b Hne); [left|right]; now right.
Qed.

(** C4, as the claim states it, read on the comparator itself: [Less] is
    not a reflexive relation.  On the one-element slice holding [Date],
    [Less(0, 0)] answers [false]; so does [Less] on every name but
    [Server]. *)
Lemma Less_not_reflexive :
  Less ["Date"] 0 0 = Some false /\
  ~ (forall a : string, lessNames a a = true).
Proof.
  split; [reflexivity|].
  intros H. specialize (H "Date"). discriminate H.
Qed.

(** C4 (amended): [Less] is a strict comparator.  Away from [Server] it
    is irreflexive; it is antisymmetric and transitive, and two distinct
    names are always comparable, so that together with equality
    ([headerLe]) it is a total order: reflexive, antisymmetric, transitive
    and total.  In that order [Server] comes before every other name, the
    eight hop-by-hop names come after every end-to-end name whatever their
    spelling, and two names of one class compare bytewise
    lexicographically. *)
Theorem Less_strict_total_order :
  (forall a, a <> "Server" -> lessNames a a = false) /\
  (forall a b, lessNames a b = true -> lessNames b a = true -> a = b) /\
  (forall a b c,
      lessNames a b = true -> lessNames b c = true -> lessNames a c = true) /\
  (forall a b, a <> b -> lessNames a b = true \/ lessNames b a = true) /\
  (forall a, headerLe a a = true) /\
  (forall a b, headerLe a b = true -> headerLe b a = true -> a = b) /\
  (forall a b c,
      headerLe a b = true -> headerLe b c = true -> headerLe a c = true) /\
  (forall a b, headerLe a b = true \/ headerLe b a = true) /\
  (forall b, b <> "Server" ->
      lessNames "Server" b = true /\ lessNames b "Server" = false) /\
  (forall n, endtoend n = false <-> In n hopByHop) /\
  (forall a b, a <> "Server" -> b <> "Server" ->
      endtoend a = true -> endtoend b = false ->
      lessNames a b = true /\ lessNames b a = false) /\
  (forall a b, a <> "Server" -> b <> "Server" ->
      endtoend a = endtoend b -> lessNames a b = GoStrings.lt a b) /\
  (forall h i j a b,
      nth_error h i = Some a -> nth_error h j = Some b ->
      Less h i j = Some (lessNames a b)).
Proof.
  repeat apply conj.
  - exact lessNames_irrefl.
  - exact lessNames_antisym.
  - exact lessNames_trans.
  - exact lessNames_connex.
  - intros a. apply headerLe_iff. now left.
  - intros a b. rewrite !headerLe_iff. intros [->|Hab] [E|Hba]; auto.
    now apply lessNames_antisym.
  - exact headerLe_trans.
  - exact headerLe_total.
  - intros b Hb. split; [reflexivity|].
    rewrite (lessNames_not_Server b "Server" Hb). reflexivity.
  - exact endtoend_false_iff.
  - intros a b Ha Hb Ea Eb.
    rewrite (lessNames_not_Server a b Ha), (lessNames_not_Server b a Hb).
    apply String.eqb_neq in Ha, Hb. rewrite Ha, Hb, Ea, Eb. now split.
  - intros a b Ha Hb E.
    rewrite (lessNames_not_Server a b Ha).
    apply String.eqb_neq in Hb. rewrite Hb, E, Bool.eqb_reflx. reflexivity.
  - intros h i j a b Hi Hj. unfold Less. now rewrite Hi, Hj.
Qed.

(** The amended C4 at concrete names: [Vary] is displayed before
    [Connection] although it is alphabetically later, [Server] before
    [Age], and [Date] before [Vary]. *)
Lemma Less_strict_total_order_witness :
  (lessNames "Vary" "Connection" = true /\
   lessNames "Connection" "Vary" = false) /\
  (lessNames "Server" "Age" = true /\ lessNames "Age" "Server" = false) /\
  lessNames "Date" "Vary" = GoStrings.lt "Date" "Vary" /\
  lessNames "Date" "Date" = false.
Proof.
  destruct Less_strict_total_order
    as (Hirr & _ & _ & _ & _ & _ & _ & _ & Hsrv & _ & Hhop & Hlex & _).
  repeat apply conj.
  - apply Hhop; [discriminate | discriminate | reflexivity | reflexivity].
  - apply Hhop; [discriminate | discriminate | reflexivity | reflexivity].
  - apply Hsrv; discriminate.
  - apply Hsrv; discriminate.
  - apply Hlex; [discriminate | discriminate | reflexivity].
  - apply Hirr; discriminate.
Defined.

End Headers.

(** ** The timing record and the diagram renderer, [printTemplate] *)

(** [type Timing struct]: five phase durations and five cumulative
    timestamps, milliseconds as Go [int]. *)
Record Timing : Type := mkTiming {
  DNS : Z;
  TCP : Z;
  TLS : Z;
  Server : Z;
  Transfer : Z;
  Lookup : Z;
  Connect : Z;
  PreTransfer : Z;
  StartTransfer : Z;
  Total : Z
}.

Module Template.

(** Go's [[]byte]. *)
Definition bytes := list ascii.

Definition nl : string := String "010"%char EmptyString.

(** The constant [httpsTemplate]. *)
Definition httpsTemplate : string :=
  "  DNS Lookup   TCP Connection   TLS Handshake   Server Processing   Content Transfer" ++ nl ++
  "[    %>DNS  |         %>TCP  |        %>TLS  |         %>Server  |      %>Transfer  ]" ++ nl ++
  "            |                |               |                   |                  |" ++ nl ++
  "   namelookup:%<Lookup       |               |                   |                  |" ++ nl ++
  "                       connect:%<Connect     |                   |                  |" ++ nl ++
  "                                   pretransfer:%<PreTransfer     |                  |" ++ nl ++
  "                                                     starttransfer:%<StartTransfer  |" ++ nl ++
  "                                                                                total:%<Total" ++ nl.

(** The constant [httpTemplate]. *)
Definition httpTemplate : string :=
  "  DNS Lookup   TCP Connection   Server Processing   Content Transfer" ++ nl ++
  "[    %>DNS  |         %>TCP  |         %>Server  |      %>Transfer  ]" ++ nl ++
  "            |                |                   |                  |" ++ nl ++
  "   namelookup:%<Lookup       |                   |                  |" ++ nl ++
  "                       connect:%<Connect         |                  |" ++ nl ++
  "                                     starttransfer:%<StartTransfer  |" ++ nl ++
  "                                                                total:%<Total" ++ nl.

(** [bytes.IndexByte(b, c)]; Go's [-1] is [None]. *)
Fixpoint IndexByte (b : bytes) (c : ascii) : option nat :=
  match b with
  | [] => None
  | x :: b' => if Ascii.eqb x c then Some O else option_map S (IndexByte b' c)
  end.

(** The test of the inner loop: an ASCII letter. *)
Definition isLetter (c : ascii) : bool :=
  let n := nat_of_ascii c in
  ((97 <=? n)%nat && (n <=? 122)%nat) || ((65 <=? n)%nat && (n <=? 90)%nat).

(** The inner [for] loop: [end] advances while [end < len(b)] and
    [b[end]] is a letter; [rest] is [b[end:]]. *)
Fixpoint scanName (rest : bytes) (end_ : nat) : nat :=
  match rest with
  | c :: rest' => if isLetter c then scanName rest' (S end_) else end_
  | [] => end_
  end.

(** [b[lo:hi]] for [lo <= hi <= len(b)]. *)
Definition slice (b : bytes) (lo hi : nat) : bytes :=
  firstn (hi - lo) (skipn lo b).

(** [reflect.ValueOf(vars).FieldByName(vnam)]: the exported fields of
    [Timing]; an unknown name gives the invalid value, [None]. *)
Definition FieldByName (vars : Timing) (vnam : string) : option Z :=
  if (vnam =? "DNS")%string then Some (DNS vars)
  else if (vnam =? "TCP")%string then Some (TCP vars)
  else if (vnam =? "TLS")%string then Some (TLS vars)
  else if (vnam =? "Server")%string then Some (Server vars)
  else if (vnam =? "Transfer")%string then Some (Transfer vars)
  else if (vnam =? "Lookup")%string then Some (Lookup vars)
  else if (vnam =? "Connect")%string then Some (Connect vars)
  else if (vnam =? "PreTransfer")%string then Some (PreTransfer vars)
  else if (vnam =? "StartTransfer")%string then Some (StartTransfer vars)
  else if (vnam =? "Total")%string then Some (Total vars)
  else None.

(** [strconv.Itoa]. *)
Definition Itoa (n : Z) : string :=
  DecimalString.NilEmpty.string_of_int (Z.to_int n).

Definition ESC : ascii := "027"%char.

(** [color.CyanString(v)] of the colour package the program imports: the
    text unchanged when colour is off ([color.NoColor], the package's
    setting when the output is not a terminal), else wrapped in the SGR
    sequences that select cyan and reset. *)
Definition CyanString (noColor : bool) (v : string) : bytes :=
  if noColor then list_ascii_of_string v
  else ((ESC :: list_ascii_of_string "[36m")
          ++ list_ascii_of_string v
          ++ (ESC :: list_ascii_of_string "[0m"))%list.

(** What running [printTemplate] does: it prints a string, or panics. *)
Inductive outcome : Type :=
| Printed (s : string)
| Panic (msg : string)
| OutOfFuel.

(** One turn of the outer loop, for the [%] found at [idx]: the new
    buffer, or the panic message. *)
Definition substitute (noColor : bool) (vars : Timing) (b : bytes) (idx : nat)
  : bytes + string :=
  match nth_error b (idx + 1) with
  | None => inr "index out of range"
  | Some dir =>
      let end_ := scanName (skipn (idx + 2) b) (idx + 2) in
      let vnam := string_of_list_ascii (slice b (idx + 2) end_) in
      let b :=
        (firstn idx b ++ repeat " "%char (end_ - idx) ++ skipn end_ b)%list in
      match FieldByName vars vnam with
      | None => inr ("invalid template variable: " ++ vnam)
      | Some val =>
          let v := Itoa val ++ "ms" in
          let vlen := String.length v in
          let v := CyanString noColor v in
          if Ascii.eqb dir ">"%char then
            if (vlen <=? end_)%nat
            then inl (firstn (end_ - vlen) b ++ v ++ skipn end_ b)%list
            else inr "slice bounds out of range"
          else if Ascii.eqb dir "<"%char then
            if (idx + vlen <=? List.length b)%nat
            then inl (firstn idx b ++ v ++ skipn (idx + vlen) b)%list
            else inr "slice bounds out of range"
          else inr ("invalid direction: " ++ String dir EmptyString)
      end
  end.

(** The outer loop: search the first [%] again after every substitution;
    print when none is left. *)
Fixpoint substituteAll (fuel : nat) (noColor : bool) (vars : Timing) (b : bytes)
  : outcome :=
  match IndexByte b "%"%char with
  | None => Printed (string_of_list_ascii b)
  | Some idx =>
      match fuel with
      | O => OutOfFuel
      | S fuel' =>
          match substitute noColor vars b idx with
          | inl b' => substituteAll fuel' noColor vars b'
          | inr msg => Panic msg
          end
      end
  end.

(** [func printTemplate(tmpl string, vars Timing)]: one turn per byte of
    the template is more than the loop can take when the coloured text
    carries no [%]. *)
Definition printTemplate (noColor : bool) (tmpl : string) (vars : Timing)
  : outcome :=
  substituteAll (String.length tmpl) noColor vars (list_ascii_of_string tmpl).

(** *** Reading the printed diagram *)

(** What a terminal shows of the printed bytes: every SGR sequence,
    from [ESC] up to its final [m], is dropped. *)
Fixpoint stripSGR (inEsc : bool) (b : bytes) : bytes :=
  match b with
  | [] => []
  | c :: b' =>
      if inEsc then stripSGR (negb (Ascii.eqb c "m"%char)) b'
      else if Ascii.eqb c ESC then stripSGR true b'
      else c :: stripSGR false b'
  end.

Definition visible (s : string) : string :=
  string_of_list_ascii (stripSGR false (list_ascii_of_string s)).

Definition isDigit (c : ascii) : bool :=
  let n := nat_of_ascii c in (48 <=? n)%nat && (n <=? 57)%nat.

(** The numeric tokens of a text, left to right: every maximal run of
    digits that [ms] follows, with that unit.  [run] holds the digits read
    so far. *)
Fixpoint numericTokens (run : string) (b : bytes) : list string :=
  match b with
  | [] => []
  | c :: b' =>
      if isDigit c then numericTokens (run ++ String c EmptyString) b'
      else
        match run, b' with
        | String _ _, c' :: _ =>
            if Ascii.eqb c "m"%char && Ascii.eqb c' "s"%char
            then (run ++ "ms") :: numericTokens EmptyString b'
            else numericTokens EmptyString b'
        | _, _ => numericTokens EmptyString b'
        end
  end.

Definition tokensOf (s : string) : list string :=
  numericTokens EmptyString (list_ascii_of_string s).

(** The letters a placeholder's name is made of, and what follows them. *)
Fixpoint splitName (b : bytes) : bytes * bytes :=
  match b with
  | c :: b' =>
      if isLetter c then let (n, r) := splitName b' in (c :: n, r)
      else ([], b)
  | [] => ([], [])
  end.

(** The renderer as the specification words it, one pass from left to
    right over the template: text is copied; a placeholder [%>Name] or
    [%<Name], a span of [2 + len(Name)] columns, becomes blanks with the
    value written so that it ends at the span's end ([>]) or starts at the
    span's start ([<]).  [None] when a name is unknown, a direction is
    neither, or a value is wider than its span. *)
Fixpoint fillSpec (fuel : nat) (vars : Timing) (b : bytes) : option bytes :=
  match fuel with
  | O => None
  | S fuel' =>
      match b with
      | [] => Some []
      | c :: r =>
          if negb (Ascii.eqb c "%"%char)
          then option_map (cons c) (fillSpec fuel' vars r)
          else
            match r with
            | [] => None
            | dir :: r' =>
                let (name, rest) := splitName r' in
                let width := (2 + List.length name)%nat in
                match FieldByName vars (string_of_list_ascii name) with
                | None => None
                | Some val =>
                    let v := list_ascii_of_string (Itoa val ++ "ms") in
                    let pad := repeat " "%char (width - List.length v) in
                    if negb (List.length v <=? width)%nat then None
                    else if Ascii.eqb dir ">"%char then
                      option_map (fun o => pad ++ v ++ o)%list
                                 (fillSpec fuel' vars rest)
                    else if Ascii.eqb dir "<"%char then
                      option_map (fun o => v ++ pad ++ o)%list
                                 (fillSpec fuel' vars rest)
                    else None
                end
            end
      end
  end.

Definition renderSpec (tmpl : string) (vars : Timing) : option string :=
  option_map string_of_list_ascii
    (fillSpec (S (String.length tmpl)) vars (list_ascii_of_string tmpl)).

(** The fixed values of the specification's rendering example. *)
Definition fixedTiming : Timing :=
  mkTiming 5 10 20 50 100 5 15 35 85 185.

(** The diagram those values give on the encrypted-scheme template. *)
Definition fixedDiagram : string :=
  "  DNS Lookup   TCP Connection   TLS Handshake   Server Processing   Content Transfer" ++ nl ++
  "[      5ms  |          10ms  |         20ms  |             50ms  |           100ms  ]" ++ nl ++
  "            |                |               |                   |                  |" ++ nl ++
  "   namelookup:5ms            |               |                   |                  |" ++ nl ++
  "                       connect:15ms          |                   |                  |" ++ nl ++
  "                                   pretransfer:35ms              |                  |" ++ nl ++
  "                                                     starttransfer:85ms             |" ++ nl ++
  "                                                                                total:185ms  " ++ nl.

(** *** One substitution, in general *)

Lemma scanName_bounds rest : forall e,
  (e <= scanName rest e <= e + List.length rest)%nat.
Proof.
  induction rest as [|c rest IH]; simpl; intros e; [lia|].
  destruct (isLetter c); [specialize (IH (S e)); lia | lia].
Qed.

Lemma firstn_repeat {A} (x : A) k n :
  (k <= n)%nat -> firstn k (repeat x n) = repeat x k.
Proof.
  revert n. induction k as [|k IH]; intros [|n] H; simpl; try lia; auto.
  rewrite IH by lia. reflexivity.
Qed.

Lemma skipn_repeat {A} (x : A) k n : skipn k (repeat x n) = repeat x (n - k).
Proof.
  revert n. induction k as [|k IH]; intros [|n]; simpl; auto.
Qed.

Lemma length_list_ascii_of_string s :
  List.length (list_ascii_of_string s) = String.length s.
Proof. induction s; simpl; congruence. Qed.

(** With colour off, a placeholder whose value is no wider than its
    span [idx .. end_) is replaced in place: the text before and after the
    span is kept, the span is blank but for the value, which ends at
    [end_] for [>] and starts at [idx] for [<]. *)
Lemma substitute_fits vars b idx dir val :
  nth_error b (idx + 1) = Some dir ->
  FieldByName vars
    (string_of_list_ascii
       (slice b (idx + 2) (scanName (skipn (idx + 2) b) (idx + 2)))) = Some val ->
  (String.length (Itoa val ++ "ms")
   <= scanName (skipn (idx + 2) b) (idx + 2) - idx)%nat ->
  substitute true vars b idx =
    let end_ := scanName (skipn (idx + 2) b) (idx + 2) in
    let v := list_ascii_of_string (Itoa val ++ "ms") in
    let pad := repeat " "%char (end_ - idx - List.length v) in
    if Ascii.eqb dir ">"%char
    then inl (firstn idx b ++ pad ++ v ++ skipn end_ b)%list
    else if Ascii.eqb dir "<"%char
    then inl (firstn idx b ++ v ++ pad ++ skipn end_ b)%list
    else inr ("invalid direction: " ++ String dir EmptyString).
Proof.
  intros Hdir Hfield Hfit. unfold substitute. rewrite Hdir, Hfield.
  assert (Hlen : (idx + 1 < List.length b)%nat)
    by (apply nth_error_Some; congruence).
  pose proof (scanName_bounds (skipn (idx + 2) b) (idx + 2)) as Hb.
  rewrite length_skipn in Hb.
  set (e := scanName (skipn (idx + 2) b) (idx + 2)) in *.
  unfold CyanString. rewrite length_list_ascii_of_string.
  set (v := (Itoa val ++ "ms")%string) in *.
  assert (Hpre : List.length (firstn idx b) = idx)
    by (rewrite length_firstn; lia).
  cbv zeta.
  destruct (Ascii.eqb dir ">"%char).
  - destruct (Nat.leb_spec (String.length v) e) as [_|H]; [|lia].
    f_equal.
    rewrite firstn_app, Hpre, (firstn_all2 (n := (e - String.length v)%nat))
      by lia.
    rewrite firstn_app, repeat_length, firstn_repeat by lia.
    replace (e - String.length v - idx - (e - idx))%nat with 0%nat by lia.
    rewrite firstn_O, app_nil_r.
    rewrite skipn_app, Hpre, (skipn_all2 (n := e)) by lia.
    rewrite skipn_app, repeat_length, skipn_repeat.
    replace (e - idx - (e - idx))%nat with 0%nat by lia.
    cbn [repeat skipn app]. rewrite <- app_assoc.
    replace (e - String.length v - idx)%nat
      with (e - idx - String.length v)%nat by lia.
    reflexivity.
  - destruct (Ascii.eqb dir "<"%char); [|reflexivity].
    rewrite !length_app, Hpre, repeat_length, length_skipn.
    destruct (Nat.leb_spec (idx + String.length v)
                           (idx + (e - idx + (List.length b - e)))) as [_|H];
      [|lia].
    f_equal.
    rewrite firstn_app, Hpre, firstn_all2 by lia.
    replace (idx - idx)%nat with 0%nat by lia.
    rewrite firstn_O, app_nil_r.
    rewrite skipn_app, Hpre, (skipn_all2 (n := (idx + String.length v)%nat))
      by lia.
    rewrite skipn_app, repeat_length, skipn_repeat.
    replace (idx + String.length v - idx - (e - idx))%nat with 0%nat by lia.
    replace (idx + String.length v - idx)%nat with (String.length v) by lia.
    cbn [skipn app]. reflexivity.
Qed.

(** C2: on the encrypted-scheme template and the fixed values,
    [printTemplate] prints [fixedDiagram] when colour is off, and with
    colour on a text that shows as [fixedDiagram]; its numeric tokens, left
    to right, are 5ms, 10ms, 20ms, 50ms, 100ms, 5ms, 15ms, 35ms, 85ms,
    185ms; the diagram is the one the specification's placeholder rule
    gives; and each turn of the loop replaces a placeholder whose value
    fits by a blank span in which a [%>] value ends at the span's end and
    a [%<] value starts at the span's start, the text around it kept. *)
Theorem printTemplate_https_fixed :
  printTemplate true httpsTemplate fixedTiming = Printed fixedDiagram /\
  (exists s, printTemplate false httpsTemplate fixedTiming = Printed s /\
             visible s = fixedDiagram) /\
  tokensOf fixedDiagram =
    ["5ms"; "10ms"; "20ms"; "50ms"; "100ms";
     "5ms"; "15ms"; "35ms"; "85ms"; "185ms"]%string /\
  renderSpec httpsTemplate fixedTiming = Some fixedDiagram /\
  String.length fixedDiagram = String.length httpsTemplate /\
  (forall vars b idx dir val,
     nth_error b (idx + 1) = Some dir ->
     FieldByName vars
       (string_of_list_ascii
          (slice b (idx + 2) (scanName (skipn (idx + 2) b) (idx + 2))))
       = Some val ->
     (String.length (Itoa val ++ "ms")
      <= scanName (skipn (idx + 2) b) (idx + 2) - idx)%nat ->
     substitute true vars b idx =
       let end_ := scanName (skipn (idx + 2) b) (idx + 2) in
       let v := list_ascii_of_string (Itoa val ++ "ms") in
       let pad := repeat " "%char (end_ - idx - List.length v) in
       if Ascii.eqb dir ">"%char
       then inl (firstn idx b ++ pad ++ v ++ skipn end_ b)%list
       else if Ascii.eqb dir "<"%char
       then inl (firstn idx b ++ v ++ pad ++ skipn end_ b)%list
       else inr ("invalid direction: " ++ String dir EmptyString)).
Proof.
  split; [vm_compute; reflexivity|].
  split.
  { eexists. split; [vm_compute; reflexivity|].
    vm_compute. reflexivity. }
  split; [vm_compute; reflexivity|].
  split; [vm_compute; reflexivity|].
  split; [vm_compute; reflexivity|].
  exact substitute_fits.
Qed.

End Template.

(** ** The trace callbacks of [visit] and the timing of one exchange *)

Module Trace.

(** [time.Time] on the process's clock, in nanoseconds; [0] is the zero
    [Time] a variable holds before it is assigned. *)
Definition Time := Z.

Definition IsZero (t : Time) : bool := t =? 0.

(** [time.Duration] is an [int64] count of nanoseconds; [Time.Sub]
    saturates at its bounds. *)
Definition maxDuration : Z := 2 ^ 63 - 1.
Definition minDuration : Z := - 2 ^ 63.
Definition Millisecond : Z := 1000000.

Definition Sub (t u : Time) : Z :=
  let d := t - u in
  if d <? minDuration then minDuration
  else if maxDuration <? d then maxDuration
  else d.

(** [msSince(t)] once [time.Now()] has been read as [now]: Go's integer
    division truncates toward zero. *)
Definition msSinceAt (now t : Time) : Z := Z.quot (Sub now t) Millisecond.

(** The callbacks of [httptrace.ClientTrace] that [visit] registers. *)
Inductive Event : Type :=
| GetConn
| DNSStart
| DNSDone
| ConnectStart
| ConnectDone (addr : string) (err : bool)
| TLSHandshakeStart
| TLSHandshakeDone
| GotConn
| GotFirstResponseByte.

(** The variables one pass of the loop declares and its closures share:
    the six time stamps and the report under construction. *)
Record Vars : Type := mkVars {
  tStart : Time;
  tDNSStart : Time;
  tConnectStart : Time;
  tTLSStart : Time;
  tConnected : Time;
  tTTFB : Time;
  Address : string;
  timing : Timing
}.

Definition initTiming : Timing := mkTiming 0 0 0 0 0 0 0 0 0 0.

(** [var tStart, ... time.Time] and [var report Report]: zero values. *)
Definition initVars : Vars := mkVars 0 0 0 0 0 0 EmptyString initTiming.

Definition set_tStart (t : Time) (v : Vars) : Vars :=
  mkVars t (tDNSStart v) (tConnectStart v) (tTLSStart v) (tConnected v)
         (tTTFB v) (Address v) (timing v).
Definition set_tDNSStart (t : Time) (v : Vars) : Vars :=
  mkVars (tStart v) t (tConnectStart v) (tTLSStart v) (tConnected v)
         (tTTFB v) (Address v) (timing v).
Definition set_tConnectStart (t : Time) (v : Vars) : Vars :=
  mkVars (tStart v) (tDNSStart v) t (tTLSStart v) (tConnected v)
         (tTTFB v) (Address v) (timing v).
Definition set_tTLSStart (t : Time) (v : Vars) : Vars :=
  mkVars (tStart v) (tDNSStart v) (tConnectStart v) t (tConnected v)
         (tTTFB v) (Address v) (timing v).
Definition set_tConnected (t : Time) (v : Vars) : Vars :=
  mkVars (tStart v) (tDNSStart v) (tConnectStart v) (tTLSStart v) t
         (tTTFB v) (Address v) (timing v).
Definition set_tTTFB (t : Time) (v : Vars) : Vars :=
  mkVars (tStart v) (tDNSStart v) (tConnectStart v) (tTLSStart v)
         (tConnected v) t (Address v) (timing v).
Definition set_Address (a : string) (v : Vars) : Vars :=
  mkVars (tStart v) (tDNSStart v) (tConnectStart v) (tTLSStart v)
         (tConnected v) (tTTFB v) a (timing v).
Definition set_timing (f : Timing -> Timing) (v : Vars) : Vars :=
  mkVars (tStart v) (tDNSStart v) (tConnectStart v) (tTLSStart v)
         (tConnected v) (tTTFB v) (Address v) (f (timing v)).

Definition set_DNS (x : Z) (t : Timing) : Timing :=
  mkTiming x (TCP t) (TLS t) (Server t) (Transfer t)
           (Lookup t) (Connect t) (PreTransfer t) (StartTransfer t) (Total t).
Definition set_TCP (x : Z) (t : Timing) : Timing :=
  mkTiming (DNS t) x (TLS t) (Server t) (Transfer t)
           (Lookup t) (Connect t) (PreTransfer t) (StartTransfer t) (Total t).
Definition set_TLS (x : Z) (t : Timing) : Timing :=
  mkTiming (DNS t) (TCP t) x (Server t) (Transfer t)
           (Lookup t) (Connect t) (PreTransfer t) (StartTransfer t) (Total t).
Definition set_Server (x : Z) (t : Timing) : Timing :=
  mkTiming (DNS t) (TCP t) (TLS t) x (Transfer t)
           (Lookup t) (Connect t) (PreTransfer t) (StartTransfer t) (Total t).
Definition set_Transfer (x : Z) (t : Timing) : Timing :=
  mkTiming (DNS t) (TCP t) (TLS t) (Server t) x
           (Lookup t) (Connect t) (PreTransfer t) (StartTransfer t) (Total t).
Definition set_Lookup (x : Z) (t : Timing) : Timing :=
  mkTiming (DNS t) (TCP t) (TLS t) (Server t) (Transfer t)
           x (Connect t) (PreTransfer t) (StartTransfer t) (Total t).
Definition set_Connect (x : Z) (t : Timing) : Timing :=
  mkTiming (DNS t) (TCP t) (TLS t) (Server t) (Transfer t)
           (Lookup t) x (PreTransfer t) (StartTransfer t) (Total t).
Definition set_PreTransfer (x : Z) (t : Timing) : Timing :=
  mkTiming (DNS t) (TCP t) (TLS t) (Server t) (Transfer t)
           (Lookup t) (Connect t) x (StartTransfer t) (Total t).
Definition set_StartTransfer (x : Z) (t : Timing) : Timing :=
  mkTiming (DNS t) (TCP t) (TLS t) (Server t) (Transfer t)
           (Lookup t) (Connect t) (PreTransfer t) x (Total t).
Definition set_Total (x : Z) (t : Timing) : Timing :=
  mkTiming (DNS t) (TCP t) (TLS t) (Server t) (Transfer t)
           (Lookup t) (Connect t) (PreTransfer t) (StartTransfer t) x.

(** What one exchange yields: the finished variables, or the message
    of [log.Fatalf]. *)
Inductive result : Type :=
| Done (v : Vars)
| Fatal (msg : string).

Section Clock.

(** The clock: [clock n] is what the [n]-th call of [time.Now()] of the
    process returns.  The program reads it once or several times in each
    callback; [n] counts the reads so far. *)
Variable clock : nat -> Time.

(** [func msSince(t time.Time) int], its [time.Now()] being the [n]-th
    read of the clock. *)
Definition msSince (n : nat) (t : Time) : Z := msSinceAt (clock n) t.

(** One callback: the number of clock reads and the variables after it,
    or [None] where the callback ends the process with [log.Fatalf]. *)
Definition callback (e : Event) (n : nat) (v : Vars) : option (nat * Vars) :=
  match e with
  | GetConn => Some (S n, set_tStart (clock n) v)
  | DNSStart => Some (S n, set_tDNSStart (clock n) v)
  | DNSDone =>
      let v := set_timing (set_DNS (msSince n (tDNSStart v))) v in
      let v := set_timing (set_Lookup (msSince (S n) (tStart v))) v in
      Some (S (S n), v)
  | ConnectStart =>
      if IsZero (tConnectStart v)
      then Some (S n, set_tConnectStart (clock n) v)
      else Some (n, v)
  | ConnectDone addr err =>
      if err then None
      else
        let v := set_timing (set_TCP (msSince n (tConnectStart v))) v in
        let v := set_timing (set_Connect (msSince (S n) (tStart v))) v in
        Some (S (S n), set_Address addr v)
  | TLSHandshakeStart => Some (S n, set_tTLSStart (clock n) v)
  | TLSHandshakeDone =>
      Some (S n, set_timing (set_TLS (msSince n (tTLSStart v))) v)
  | GotConn =>
      let v := set_tConnected (clock n) v in
      let v := set_timing (set_PreTransfer (msSince (S n) (tStart v))) v in
      Some (S (S n), v)
  | GotFirstResponseByte =>
      let v := set_tTTFB (clock n) v in
      let v := set_timing (set_Server (msSince (S n) (tConnected v))) v in
      let v :=
        set_timing (set_StartTransfer (msSince (S (S n)) (tStart v))) v in
      Some (S (S (S n)), v)
  end.

(** The callbacks that fire while [client.Do(req)] runs, in their order. *)
Fixpoint fire (evs : list Event) (n : nat) (v : Vars) : option (nat * Vars) :=
  match evs with
  | [] => Some (n, v)
  | e :: evs' =>
      match callback e n v with
      | Some (n', v') => fire evs' n' v'
      | None => None
      end
  end.

(** The lines after the body is read: [Transfer] and [Total]. *)
Definition finish (n : nat) (v : Vars) : Vars :=
  let v := set_timing (set_Transfer (msSince n (tTTFB v))) v in
  set_timing (set_Total (msSince (S n) (tStart v))) v.

(** One successful pass of the loop body from the declaration of the
    variables to [report.Timing.Total]: the exchange fires [evs], the body
    is read (the clock may be read [k] times meanwhile), the two last
    fields are set.  [n0] clock reads came before. *)
Definition exchange (n0 : nat) (evs : list Event) (k : nat) : result :=
  match fire evs n0 initVars with
  | Some (n, v) => Done (finish (n + k) v)
  | None => Fatal "unable to connect to host"
  end.

End Clock.

(** The order in which the library fires the callbacks on a plaintext
    exchange that succeeds, as a machine over the phases of the
    specification: the connection is asked for; a name may be resolved,
    and a resolved name is then dialled; a dial is one or several attempts
    and their completions; the connection is obtained (a pooled one with
    neither resolution nor dial); the first byte arrives.  No handshake
    event occurs. *)
Inductive Phase : Type :=
| Idle
| Acquiring
| Resolving
| Resolved
| Connecting
| Connected
| Ready
| Complete.

Definition next (p : Phase) (e : Event) : option Phase :=
  match p, e with
  | Idle, GetConn => Some Acquiring
  | Acquiring, DNSStart => Some Resolving
  | Acquiring, ConnectStart => Some Connecting
  | Acquiring, GotConn => Some Ready
  | Resolving, DNSDone => Some Resolved
  | Resolved, ConnectStart => Some Connecting
  | Connecting, ConnectStart => Some Connecting
  | Connecting, ConnectDone _ _ => Some Connected
  | Connected, ConnectStart => Some Connected
  | Connected, ConnectDone _ _ => Some Connected
  | Connected, GotConn => Some Ready
  | Ready, GotFirstResponseByte => Some Complete
  | _, _ => None
  end.

Fixpoint phaseAfter (p : Phase) (evs : list Event) : option Phase :=
  match evs with
  | [] => Some p
  | e :: evs' =>
      match next p e with
      | Some p' => phaseAfter p' evs'
      | None => None
      end
  end.

Definition plaintextExchange (evs : list Event) : bool :=
  match phaseAfter Idle evs with
  | Some Complete => true
  | _ => false
  end.

(** What holds of the cumulative fields in each phase, [m] being the time
    since [tStart] at the last clock read. *)
Definition fieldsAt (p : Phase) (t : Timing) (m : Z) : Prop :=
  match p with
  | Idle => False
  | Acquiring | Resolving =>
      Lookup t = 0 /\ Connect t = 0 /\ PreTransfer t = 0 /\ StartTransfer t = 0
  | Resolved | Connecting =>
      0 <= Lookup t <= m /\
      Connect t = 0 /\ PreTransfer t = 0 /\ StartTransfer t = 0
  | Connected =>
      0 <= Lookup t <= Connect t /\ Connect t <= m /\
      PreTransfer t = 0 /\ StartTransfer t = 0
  | Ready =>
      0 <= Lookup t <= Connect t /\ Connect t <= PreTransfer t <= m /\
      StartTransfer t = 0
  | Complete =>
      0 <= Lookup t <= Connect t /\
      Connect t <= PreTransfer t <= StartTransfer t /\ StartTransfer t <= m
  end.

(** What holds of the variables after the events that lead to a phase,
    [n] clock reads having been made. *)
Definition inv (clock : nat -> Time) (p : Phase) (n : nat) (v : Vars) : Prop :=
  match p with
  | Idle => v = initVars
  | _ =>
      exists k0, (k0 < n)%nat /\ tStart v = clock k0 /\
                 TLS (timing v) = 0 /\
                 fieldsAt p (timing v) (msSinceAt (clock (pred n)) (tStart v))
  end.

(** A clock that advances 7.3 ms between two reads, and the events of a
    fresh plaintext connection. *)
Definition sampleClock (n : nat) : Time := 1 + 7300000 * Z.of_nat n.

Definition sampleEvents : list Event :=
  [GetConn; DNSStart; DNSDone; ConnectStart;
   ConnectDone "93.184.216.34:80" false; GotConn; GotFirstResponseByte].

(** *** Elapsed time on a clock that never runs backwards *)

Lemma Sub_mono a b t : a <= b -> Sub a t <= Sub b t.
Proof.
  unfold Sub, minDuration, maxDuration. intros H.
  repeat match goal with
  | |- context [?x <? ?y] => destruct (Z.ltb_spec x y)
  end; lia.
Qed.

Lemma Sub_nonneg a t : t <= a -> 0 <= Sub a t.
Proof.
  unfold Sub, minDuration, maxDuration. intros H.
  repeat match goal with
  | |- context [?x <? ?y] => destruct (Z.ltb_spec x y)
  end; lia.
Qed.

Lemma msSinceAt_mono a b t : a <= b -> msSinceAt a t <= msSinceAt b t.
Proof.
  intros H. unfold msSinceAt, Millisecond.
  apply Z.quot_le_mono; [lia | now apply Sub_mono].
Qed.

Lemma msSinceAt_nonneg a t : t <= a -> 0 <= msSinceAt a t.
Proof.
  intros H. unfold msSinceAt, Millisecond.
  apply Z.quot_pos; [now apply Sub_nonneg | lia].
Qed.

Section Ordered.

Variable clock : nat -> Time.
Hypothesis clock_mono : forall i j, (i <= j)%nat -> clock i <= clock j.

Lemma since_start_le k0 i j :
  (k0 <= i)%nat -> (i <= j)%nat ->
  0 <= msSinceAt (clock i) (clock k0) <= msSinceAt (clock j) (clock k0).
Proof.
  intros H0 H1. split.
  - apply msSinceAt_nonneg. now apply clock_mono.
  - apply msSinceAt_mono. now apply clock_mono.
Qed.

Lemma callback_inv p e p' n v n' v' :
  inv clock p n v -> next p e = Some p' -> callback clock e n v = Some (n', v') ->
  inv clock p' n' v'.
Proof.
  intros Hinv Hnext Hcb.
  destruct p; destruct e; simpl in Hnext; try discriminate;
    injection Hnext as <-; unfold callback, msSince in Hcb;
    repeat match type of Hcb with
    | context [if ?c then _ else _] => destruct c eqn:?
    end;
    try discriminate; injection Hcb as <- <-.
  all: try (red in Hinv; subst v; exists n; simpl;
            repeat split; try reflexivity; lia).
  all: destruct Hinv as (k0 & Hk & Hs & Htls & Hf); exists k0; simpl in *;
    rewrite ?Hs in *;
    pose proof (since_start_le k0 (pred n) n ltac:(lia) ltac:(lia));
    pose proof (since_start_le k0 n (S n) ltac:(lia) ltac:(lia));
    pose proof (since_start_le k0 (S n) (S (S n)) ltac:(lia) ltac:(lia));
    repeat split; try lia; try tauto.
Qed.

Lemma fire_inv evs : forall p p' n v n' v',
  inv clock p n v -> phaseAfter p evs = Some p' -> fire clock evs n v = Some (n', v') ->
  inv clock p' n' v' /\ (n <= n')%nat.
Proof.
  induction evs as [|e evs IH]; simpl; intros p p' n v n' v' Hinv Hph Hfire.
  - injection Hph as <-. injection Hfire as <- <-. auto.
  - destruct (next p e) as [q|] eqn:Hq; [|discriminate].
    destruct (callback clock e n v) as [[n1 v1]|] eqn:Hcb; [|discriminate].
    destruct (IH _ _ _ _ _ _ (callback_inv _ _ _ _ _ _ _ Hinv Hq Hcb) Hph Hfire)
      as [Hinv' Hle].
    split; [exact Hinv'|].
    enough (n <= n1)%nat by lia.
    destruct e; simpl in Hcb;
      repeat match type of Hcb with
      | context [if ?c then _ else _] => destruct c
      end; try discriminate; injection Hcb as <- _; lia.
Qed.

(** C1: on a clock that never runs backwards, every successful plaintext
    exchange leaves a [Timing] whose [TLS] is zero and whose cumulative
    timestamps are non-negative and ordered:
    [Lookup <= Connect <= PreTransfer <= StartTransfer <= Total]. *)
Theorem plaintext_timing_ordered n0 evs k v :
  plaintextExchange evs = true ->
  exchange clock n0 evs k = Done v ->
  TLS (timing v) = 0 /\
  0 <= Lookup (timing v) /\
  Lookup (timing v) <= Connect (timing v) /\
  Connect (timing v) <= PreTransfer (timing v) /\
  PreTransfer (timing v) <= StartTransfer (timing v) /\
  StartTransfer (timing v) <= Total (timing v).
Proof.
  unfold plaintextExchange, exchange. intros Hproto Hex.
  destruct (phaseAfter Idle evs) as [[]|] eqn:Hph; try discriminate.
  destruct (fire clock evs n0 initVars) as [[n v1]|] eqn:Hfire; [|discriminate].
  injection Hex as <-.
  destruct (fire_inv evs Idle Complete n0 initVars n v1 eq_refl Hph Hfire)
    as [(k0 & Hk & Hs & Htls & Hf) _].
  unfold finish, msSince. simpl in *. rewrite Hs in *.
  pose proof (since_start_le k0 (pred n) (S (n + k)) ltac:(lia) ltac:(lia)).
  repeat split; lia.
Qed.

End Ordered.

Lemma sampleClock_mono i j : (i <= j)%nat -> sampleClock i <= sampleClock j.
Proof. unfold sampleClock. lia. Qed.

(** C1 at the sample exchange: the timing it leaves is 7, 7, 0, 21, 21
    for the phases and 21, 43, 58, 80, 94 for the cumulative stamps. *)
Lemma plaintext_timing_ordered_witness :
  exists v,
    exchange sampleClock 0 sampleEvents 0 = Done v /\
    timing v = mkTiming 7 7 0 21 21 21 43 58 80 94 /\
    TLS (timing v) = 0 /\
    0 <= Lookup (timing v) /\
    Lookup (timing v) <= Connect (timing v) /\
    Connect (timing v) <= PreTransfer (timing v) /\
    PreTransfer (timing v) <= StartTransfer (timing v) /\
    StartTransfer (timing v) <= Total (timing v).
Proof.
  eexists. split; [reflexivity|]. split; [reflexivity|].
  apply (plaintext_timing_ordered sampleClock sampleClock_mono
           0 sampleEvents 0); reflexivity.
Defined.

End Trace.

(** ** Requests, responses, flags, and the world outside the program *)

(** The parts of [url.URL] the program reads. *)
Record URL : Type := mkURL {
  Scheme : string;
  Host : string;
  Path : string;
  RawQuery : string
}.

(** [u.RequestURI()] for a URL without opaque part: the path, [/] when
    it is empty, and the query when there is one. *)
Definition RequestURI (u : URL) : string :=
  (if (Path u =? "")%string then "/" else Path u)
  ++ (if (RawQuery u =? "")%string then "" else "?" ++ RawQuery u).

(** What [resp.Location()] returns: the target, [http.ErrNoLocation], or
    another error. *)
Inductive LocationResult : Type :=
| LocationURL (loc : URL)
| ErrNoLocation
| ErrLocation (msg : string).

(** The parts of [http.Response] the program reads.  [BodyErr] says that
    reading [resp.Body] to its end returns an error. *)
Record Response : Type := mkResponse {
  StatusCode : Z;
  ContentDisposition : string;
  Location : LocationResult;
  BodyErr : bool
}.

(** The parts of [http.Request] the program reads or sets.  [reqHeader]
    lists the headers in the order [Header.Add] received them. *)
Record Request : Type := mkRequest {
  Method : string;
  reqURL : URL;
  reqHost : string;
  reqHeader : list (string * string)
}.

(** The command line flags, the package variables of the program.
    Durations are nanoseconds. *)
Record Flags : Type := mkFlags {
  httpMethod : string;
  postBody : string;
  followRedirects : bool;
  insecure : bool;
  httpHeaders : list string;
  saveOutput : bool;
  outputFile : string;
  clientCertFile : string;
  cacert : string;
  jsonOutput : bool;
  numRequests : Z;
  requestDelay : Z
}.

(** The flags as [init] declares them, with no option given. *)
Definition defaultFlags : Flags :=
  {| httpMethod := "GET"; postBody := ""; followRedirects := false;
     insecure := false; httpHeaders := []; saveOutput := false;
     outputFile := ""; clientCertFile := ""; cacert := "";
     jsonOutput := false; numRequests := 1; requestDelay := 3000000000 |}.

(** The libraries and the operating system, as far as the program asks
    them:
    - [ParseMediaType]: [mime.ParseMediaType], the media type and its
      parameters, or an error;
    - [osCreate], [osOpen]: whether [os.Create] and [os.Open] succeed;
    - [osWriteErr]: whether writing the body to the created file fails;
    - [NoColor]: [color.NoColor];
    - [ReadFile]: [ioutil.ReadFile], the contents or an error;
    - [CertsFromPEM]: the certificates [AppendCertsFromPEM] finds and adds;
    - [KeyPairFromPEM]: the PEM walk of [readClientCert] followed by
      [tls.X509KeyPair], the certificate or an error;
    - [SplitHostPort]: the host of [net.SplitHostPort], or an error;
    - [ConfigureHTTP2]: whether [http2.ConfigureTransport] succeeds;
    - [urlParse]: [url.Parse];
    - [NewRequestOk]: whether [http.NewRequest] accepts method and URL;
    - [clientDo]: what [client.Do] answers to the [n]-th request of the
      process, a response or an error. *)
Record World : Type := mkWorld {
  ParseMediaType : string -> option (string * list (string * string));
  osCreate : string -> bool;
  osOpen : string -> bool;
  osWriteErr : string -> bool;
  NoColor : bool;
  ReadFile : string -> option string;
  CertsFromPEM : string -> list string;
  KeyPairFromPEM : string -> option string;
  SplitHostPort : string -> option string;
  ConfigureHTTP2 : bool;
  urlParse : string -> option URL;
  NewRequestOk : string -> URL -> bool;
  clientDo : nat -> URL -> option Response
}.

(** ** The body reader: [isRedirect], [getFilenameFromHeaders],
    [readResponseBody] *)

Module Body.

(** [func isRedirect(resp *http.Response) bool] *)
Definition isRedirect (resp : Response) : bool :=
  (299 <? StatusCode resp) && (StatusCode resp <? 400).

(** [params["filename"]] on a Go map: the empty string when absent. *)
Fixpoint param (k : string) (params : list (string * string)) : string :=
  match params with
  | [] => ""
  | (k', v) :: params' => if (k' =? k)%string then v else param k params'
  end.

(** [func getFilenameFromHeaders(headers http.Header) string] *)
Definition getFilenameFromHeaders (w : World) (resp : Response) : string :=
  let hdr := ContentDisposition resp in
  if negb (hdr =? "")%string then
    match ParseMediaType w hdr with
    | Some (mt, params) =>
        if (mt =? "attachment")%string then param "filename" params else ""
    | None => ""
    end
  else "".

(** Go's [path.Base]: [.] for the empty path; trailing slashes dropped;
    then what follows the last slash; [/] when nothing is left. *)
Fixpoint dropTrailingSlashes (rev_path : list ascii) : list ascii :=
  match rev_path with
  | c :: r => if Ascii.eqb c "/"%char then dropTrailingSlashes r else rev_path
  | [] => []
  end.

Fixpoint lastElement (rev_path : list ascii) : list ascii :=
  match rev_path with
  | c :: r => if Ascii.eqb c "/"%char then [] else c :: lastElement r
  | [] => []
  end.

Definition pathBase (path : string) : string :=
  if (path =? "")%string then "."
  else
    let p := dropTrailingSlashes (rev (list_ascii_of_string path)) in
    match rev (lastElement p) with
    | [] => "/"
    | l => string_of_list_ascii l
    end.

Definition cyan (w : World) (s : string) : string :=
  string_of_list_ascii (Template.CyanString (NoColor w) s).

(** What the function does to the outside: it creates a file, copies the
    body to the file or to [ioutil.Discard], closes the file. *)
Inductive IOEvent : Type :=
| Create (filename : string)
| Copy (dest : option string)
| Close (filename : string).

(** It returns its message, or ends the process with [log.Fatalf]. *)
Inductive BodyResult : Type :=
| Returned (msg : string)
| Fatal (msg : string).

(** [saveOutput || outputFile != ""] *)
Definition saving (fl : Flags) : bool :=
  saveOutput fl || negb (outputFile fl =? "")%string.

(** The local variable [filename] once the [if saveOutput] block is
    passed. *)
Definition outputFilename (fl : Flags) (w : World)
                          (req : Request) (resp : Response) : string :=
  if saveOutput fl then
    let f := getFilenameFromHeaders w resp in
    if (f =? "")%string then pathBase (RequestURI (reqURL req)) else f
  else outputFile fl.

(** [func readResponseBody(req *http.Request, resp *http.Response) string].
    The deferred [f.Close()] runs when the function returns, not when
    [log.Fatalf] exits. *)
Definition readResponseBody (fl : Flags) (w : World)
                            (req : Request) (resp : Response)
  : list IOEvent * BodyResult :=
  if isRedirect resp || (Method req =? "HEAD")%string then ([], Returned "")
  else if saving fl then
    let filename := outputFilename fl w req resp in
    if saveOutput fl && (filename =? "/")%string then
      ([], Fatal "No remote filename; specify output filename with -o to save response body")
    else if negb (osCreate w filename) then
      ([], Fatal ("unable to create file " ++ filename))
    else if BodyErr resp || osWriteErr w filename then
      ([Create filename; Copy (Some filename)],
       Fatal "failed to read response body")
    else
      ([Create filename; Copy (Some filename); Close filename],
       Returned (cyan w "Body read"))
  else
    ([Copy None], Returned (cyan w "Body discarded")).

(** The body was drained: [io.Copy] ran on [resp.Body]. *)
Definition drained (evs : list IOEvent) : bool :=
  existsb (fun e => match e with Copy _ => true | _ => false end) evs.

Definition isFatal (r : BodyResult) : bool :=
  match r with Fatal _ => true | Returned _ => false end.

(** The output file has a name and is created: neither of the two
    [log.Fatalf] before [io.Copy] is reached. *)
Definition outputOpens (fl : Flags) (w : World)
                       (req : Request) (resp : Response) : bool :=
  let filename := outputFilename fl w req resp in
  negb (saveOutput fl && (filename =? "/")%string) && osCreate w filename.

(** A world in which nothing fails: files are created and written, no
    header parses as a media type, colour is off. *)
Definition quietWorld : World :=
  {| ParseMediaType := fun _ => None;
     osCreate := fun _ => true;
     osOpen := fun _ => true;
     osWriteErr := fun _ => false;
     NoColor := true;
     ReadFile := fun _ => None;
     CertsFromPEM := fun _ => [];
     KeyPairFromPEM := fun _ => None;
     SplitHostPort := fun _ => None;
     ConfigureHTTP2 := true;
     urlParse := fun _ => None;
     NewRequestOk := fun _ _ => true;
     clientDo := fun _ _ => None |}.

Definition root : URL := mkURL "https" "example.com" "/" "".

Definition getRoot : Request := mkRequest "GET" root "example.com" [].

(** A [200] without [Content-Disposition]; its body reads to the end. *)
Definition ok200 : Response := mkResponse 200 "" ErrNoLocation false.

(** The same, but reading the body fails on the way. *)
Definition broken200 : Response := mkResponse 200 "" ErrNoLocation true.

(** [-O] and [-o out.bin]. *)
Definition flagsO : Flags :=
  {| httpMethod := "GET"; postBody := ""; followRedirects := false;
     insecure := false; httpHeaders := []; saveOutput := true;
     outputFile := ""; clientCertFile := ""; cacert := "";
     jsonOutput := false; numRequests := 1; requestDelay := 3000000000 |}.
Definition flagso : Flags :=
  {| httpMethod := "GET"; postBody := ""; followRedirects := false;
     insecure := false; httpHeaders := []; saveOutput := false;
     outputFile := "out.bin"; clientCertFile := ""; cacert := "";
     jsonOutput := false; numRequests := 1; requestDelay := 3000000000 |}.

(** *** Properties of the body reader *)

Lemma isRedirect_iff resp :
  isRedirect resp = true <-> 300 <= StatusCode resp < 400.
Proof.
  unfold isRedirect. rewrite Bool.andb_true_iff, !Z.ltb_lt. lia.
Qed.

Lemma HEAD_returns_at_once fl w req resp :
  Method req = "HEAD" -> readResponseBody fl w req resp = ([], Returned "").
Proof.
  intros H. unfold readResponseBody. rewrite H. simpl.
  now rewrite Bool.orb_true_r.
Qed.

Lemma redirect_returns_at_once fl w req resp :
  isRedirect resp = true -> readResponseBody fl w req resp = ([], Returned "").
Proof. intros H. unfold readResponseBody. now rewrite H. Qed.

(** C7, as the claim states it, fails when the body is to be saved and
    no file can be named: a [GET] of the root path with [-O] that a
    [200] without [Content-Disposition] answers is neither a [HEAD] nor
    a redirect, and the run stops before the body is read. *)
Lemma body_not_drained_without_filename :
  Method getRoot <> "HEAD" /\
  isRedirect ok200 = false /\
  readResponseBody flagsO quietWorld getRoot ok200 =
    ([], Fatal "No remote filename; specify output filename with -o to save response body") /\
  drained (fst (readResponseBody flagsO quietWorld getRoot ok200)) = false.
Proof.
  split; [discriminate|]. repeat split; reflexivity.
Qed.

(** C7 (amended): the body is drained if and only if the method is not
    [HEAD], the response is not a redirect and, when the body is to be
    saved, the output file has a name and is created; otherwise nothing is
    read, and in the last case the run is ended.  A response is a redirect
    exactly when its status is in [300, 400).  A [HEAD] request reads
    nothing whatever [-O] and [-o] say. *)
Theorem body_drained_iff fl w req resp :
  (drained (fst (readResponseBody fl w req resp)) = true <->
     Method req <> "HEAD" /\ isRedirect resp = false /\
     (saving fl = true -> outputOpens fl w req resp = true)) /\
  (drained (fst (readResponseBody fl w req resp)) = false ->
     fst (readResponseBody fl w req resp) = []) /\
  (Method req <> "HEAD" -> isRedirect resp = false ->
     saving fl = true -> outputOpens fl w req resp = false ->
     isFatal (snd (readResponseBody fl w req resp)) = true) /\
  (isRedirect resp = true <-> 300 <= StatusCode resp < 400) /\
  (Method req = "HEAD" ->
     readResponseBody fl w req resp = ([], Returned "")).
Proof.
  split; [|split; [|split; [|split]]].
  - unfold readResponseBody, outputOpens.
    destruct (isRedirect resp); simpl.
    { split; [discriminate|]. intros (_ & H & _). discriminate. }
    destruct (String.eqb_spec (Method req) "HEAD") as [E|E]; simpl.
    { split; [discriminate|]. intros (H & _). contradiction. }
    destruct (saving fl); simpl; [|intuition congruence].
    destruct (saveOutput fl && (outputFilename fl w req resp =? "/")%string);
      simpl.
    { split; [discriminate|]. intros (_ & _ & H). discriminate H; reflexivity. }
    destruct (osCreate w (outputFilename fl w req resp)); simpl.
    + destruct (BodyErr resp || osWriteErr w (outputFilename fl w req resp));
        simpl; intuition congruence.
    + split; [discriminate|]. intros (_ & _ & H). discriminate H; reflexivity.
  - unfold readResponseBody.
    repeat match goal with
    | |- context [if ?c then _ else _] => destruct c
    end; simpl; congruence.
  - intros Hm Hr Hs Ho. unfold readResponseBody, outputOpens in *.
    apply String.eqb_neq in Hm. rewrite Hr, Hm, Hs. simpl.
    destruct (saveOutput fl && (outputFilename fl w req resp =? "/")%string);
      simpl in *; [reflexivity|].
    now rewrite Ho.
  - apply isRedirect_iff.
  - apply HEAD_returns_at_once.
Qed.

(** The amended C7 on two requests: a [GET] saved with [-o out.bin] is
    drained; the same request as [HEAD] is not. *)
Lemma body_drained_iff_witness :
  drained (fst (readResponseBody flagso quietWorld getRoot ok200)) = true /\
  readResponseBody flagsO quietWorld (mkRequest "HEAD" root "example.com" []) ok200 =
    ([], Returned "").
Proof.
  split.
  - apply (proj1 (body_drained_iff flagso quietWorld getRoot ok200)).
    split; [discriminate|]. split; reflexivity.
  - apply (body_drained_iff flagsO quietWorld (mkRequest "HEAD" root "example.com" []) ok200).
    reflexivity.
Defined.

(** C5 (amended): when reading the body fails, the run is ended exactly
    when the body is being saved ([-O] or [-o]); when the body is
    discarded the failure is ignored and the function returns its usual
    message.  With the output file open the message of the fatal error is
    the one of the failed read. *)
Theorem body_read_error_fatal_iff_saving fl w req resp :
  Method req <> "HEAD" -> isRedirect resp = false -> BodyErr resp = true ->
  isFatal (snd (readResponseBody fl w req resp)) = saving fl /\
  (saving fl = false ->
     readResponseBody fl w req resp =
       ([Copy None], Returned (cyan w "Body discarded"))) /\
  (saving fl = true -> outputOpens fl w req resp = true ->
     snd (readResponseBody fl w req resp) =
       Fatal "failed to read response body").
Proof.
  intros Hm Hr He. unfold readResponseBody, outputOpens.
  apply String.eqb_neq in Hm. rewrite Hr, Hm, He. simpl.
  destruct (saving fl); simpl.
  - destruct (saveOutput fl && (outputFilename fl w req resp =? "/")%string);
      simpl.
    + repeat split; congruence.
    + destruct (osCreate w (outputFilename fl w req resp)); simpl;
        repeat split; congruence.
  - repeat split; congruence.
Qed.

(** The amended C5 with [-o out.bin]: the failed read ends the run. *)
Lemma body_read_error_fatal_iff_saving_witness :
  isFatal (snd (readResponseBody flagso quietWorld getRoot broken200)) = true /\
  snd (readResponseBody flagso quietWorld getRoot broken200) =
    Fatal "failed to read response body".
Proof.
  destruct (body_read_error_fatal_iff_saving flagso quietWorld getRoot broken200)
    as (H1 & _ & H3); [discriminate | reflexivity | reflexivity |].
  split; [exact H1 | apply H3; reflexivity].
Defined.

End Body.

(** ** The TLS set-up of [visit]: [readCACerts], [readClientCert] *)

Module Transport.

(** [*x509.CertPool]: the certificates of the pool.  The [nil] pointer is
    [None]; as [RootCAs] it makes TLS verify against the roots of the
    host system. *)
Definition CertPool := list string.

(** [func readCACerts(filename string)], which returns a pool and an
    error: [x509.NewCertPool()] is empty, [AppendCertsFromPEM] adds what it can
    parse and its result is not looked at. *)
Definition readCACerts (w : World) (filename : string)
  : option CertPool * option string :=
  if (filename =? "")%string then (None, None)
  else
    match ReadFile w filename with
    | None => (None, Some "failed to read CA certificate file")
    | Some certFileBytes => (Some ([] ++ CertsFromPEM w certFileBytes)%list, None)
    end.

(** [func readClientCert(filename string)], which returns the
    certificates and an error. *)
Definition readClientCert (w : World) (filename : string)
  : list string * option string :=
  if (filename =? "")%string then ([], None)
  else
    match ReadFile w filename with
    | None => ([], Some "failed to read client certificate file")
    | Some certFileBytes =>
        match KeyPairFromPEM w certFileBytes with
        | None => ([], Some "unable to load client cert and key pair")
        | Some cert => ([cert], None)
        end
    end.

(** The fields of [tls.Config] that [visit] sets. *)
Record TLSConfig : Type := mkTLSConfig {
  ServerName : string;
  InsecureSkipVerify : bool;
  Certificates : list string;
  RootCAs : option CertPool
}.

(** What the [switch url.Scheme] of [visit] ends in: the lines logged
    with [log.Printf] and the TLS configuration of the transport (none for
    a scheme other than [https]), or a [log.Fatal]. *)
Inductive Setup : Type :=
| Configured (warnings : list string) (cfg : option TLSConfig)
| SetupFatal (warnings : list string) (msg : string).

(** The [switch url.Scheme] of [visit]. *)
Definition configure (fl : Flags) (w : World) (url : URL) (req : Request)
  : Setup :=
  if (Scheme url =? "https")%string then
    let host :=
      match SplitHostPort w (reqHost req) with
      | Some h => h
      | None => reqHost req
      end in
    match readClientCert w (clientCertFile fl) with
    | (_, Some err) => SetupFatal [] err
    | (cert, None) =>
        let (rootCAs, err) := readCACerts w (cacert fl) in
        let warnings :=
          match err with
          | Some e => ["warning: failed to read CA certificates: " ++ e]
          | None => []
          end in
        let cfg := mkTLSConfig host (insecure fl) cert rootCAs in
        if ConfigureHTTP2 w then Configured warnings (Some cfg)
        else SetupFatal warnings "failed to prepare transport for HTTP/2"
    end
  else Configured [] None.








End Transport.

(** ** [parseURL] *)

Module ParseURL.

Definition set_Scheme (sch : string) (u : URL) : URL :=
  mkURL sch (Host u) (Path u) (RawQuery u).

(** The first lines of [parseURL]: a target with neither [://] nor a
    leading [//] gets [//] in front, so that the parser reads a host. *)
Definition prepare (uri : string) : string :=
  if negb (GoStrings.Contains uri "://") && negb (GoStrings.HasPrefix uri "//")
  then "//" ++ uri
  else uri.

(** [func parseURL(uri string) *url.URL]; [None] is the [log.Fatalf] on
    a target that does not parse. *)
Definition parseURL (w : World) (uri : string) : option URL :=
  match urlParse w (prepare uri) with
  | None => None
  | Some url =>
      if (Scheme url =? "")%string then
        let sch := "http" in
        let sch :=
          if negb (GoStrings.HasSuffix (Host url) ":80") then sch ++ "s"
          else sch in
        Some (set_Scheme sch url)
      else Some url
  end.

(** The port a host names, as [url.URL.Port] reads it: what follows the
    last colon when that is digits only, else nothing. *)
Fixpoint afterLastColon (host : string) : option string :=
  match host with
  | EmptyString => None
  | String c host' =>
      match afterLastColon host' with
      | Some t => Some t
      | None => if Ascii.eqb c ":"%char then Some host' else None
      end
  end.

Fixpoint allDigits (s : string) : bool :=
  match s with
  | EmptyString => true
  | String c s' => Template.isDigit c && allDigits s'
  end.

Definition Port (host : string) : string :=
  match afterLastColon host with
  | Some t => if allDigits t then t else ""
  | None => ""
  end.

(** A parser for the targets of the examples, which are a host and
    nothing else: of [//host] it makes a URL with that host and no
    scheme, as [url.Parse] does. *)
Definition parseHostOnly (s : string) : option URL :=
  match s with
  | String "/" (String "/" host) => Some (mkURL "" host "" "")
  | _ => None
  end.

Definition hostWorld : World :=
  {| ParseMediaType := fun _ => None;
     osCreate := fun _ => true;
     osOpen := fun _ => true;
     osWriteErr := fun _ => false;
     NoColor := true;
     ReadFile := fun _ => None;
     CertsFromPEM := fun _ => [];
     KeyPairFromPEM := fun _ => None;
     SplitHostPort := fun _ => None;
     ConfigureHTTP2 := true;
     urlParse := parseHostOnly;
     NewRequestOk := fun _ _ => true;
     clientDo := fun _ _ => None |}.

(** *** The suffix test of [parseURL] and the port of the host *)

Lemma afterLastColon_tail pre t :
  afterLastColon t = None ->
  afterLastColon (pre ++ String ":" t) = Some t.
Proof.
  intros Ht. induction pre as [|c pre IH]; simpl.
  - now rewrite Ht.
  - now rewrite IH.
Qed.

Lemma afterLastColon_Some host t :
  afterLastColon host = Some t -> exists pre, host = pre ++ String ":" t.
Proof.
  revert t. induction host as [|c host IH]; simpl; intros t H; [discriminate|].
  destruct (afterLastColon host) as [t'|] eqn:E.
  - injection H as ->. destruct (IH t eq_refl) as [pre ->].
    now exists (String c pre).
  - destruct (Ascii.eqb_spec c ":"%char) as [->|]; [|discriminate].
    injection H as ->. now exists "".
Qed.

Lemma HasSuffix_port80 host :
  GoStrings.HasSuffix host ":80" = true <-> Port host = "80".
Proof.
  rewrite GoStrings.HasSuffix_iff. unfold Port. split.
  - intros [pre ->]. now rewrite (afterLastColon_tail pre "80" eq_refl).
  - destruct (afterLastColon host) as [t|] eqn:E; [|discriminate].
    destruct (allDigits t); [|discriminate]. intros ->.
    exact (afterLastColon_Some host "80" E).
Qed.

(** C8: a target in which the parser finds no scheme gets the scheme
    [https], except when its host names the port 80, in which case it
    gets [http]; the rest of the URL is kept.  The parser is given the
    target itself, or the target behind [//] when it has neither [://] nor
    a leading [//]. *)
Theorem parseURL_scheme_default w uri u :
  urlParse w (prepare uri) = Some u ->
  Scheme u = "" ->
  exists u',
    parseURL w uri = Some u' /\
    Host u' = Host u /\ Path u' = Path u /\ RawQuery u' = RawQuery u /\
    (Port (Host u) = "80" -> Scheme u' = "http") /\
    (Port (Host u) <> "80" -> Scheme u' = "https") /\
    (GoStrings.Contains uri "://" = false ->
     GoStrings.HasPrefix uri "//" = false -> prepare uri = "//" ++ uri).
Proof.
  intros Hp Hs. unfold parseURL. rewrite Hp, Hs. simpl.
  eexists. split; [reflexivity|]. simpl.
  repeat split.
  - intros H80. apply HasSuffix_port80 in H80. now rewrite H80.
  - intros H80.
    destruct (GoStrings.HasSuffix (Host u) ":80") eqn:E; [|reflexivity].
    apply HasSuffix_port80 in E. contradiction.
  - intros Hc Hpre. unfold prepare. now rewrite Hc, Hpre.
Qed.

(** C8 on the two targets of the specification: [example.com] resolves
    to [https], [example.com:80] to [http]. *)
Lemma parseURL_scheme_default_witness :
  parseURL hostWorld "example.com" = Some (mkURL "https" "example.com" "" "") /\
  parseURL hostWorld "example.com:80" = Some (mkURL "http" "example.com:80" "" "").
Proof.
  split.
  - destruct (parseURL_scheme_default hostWorld "example.com"
                (mkURL "" "example.com" "" "") eq_refl eq_refl)
      as (u' & -> & Hh & Hpa & Hq & _ & Hs & _).
    destruct u' as [sch h pa q]. simpl in *.
    rewrite Hh, Hpa, Hq, Hs; [reflexivity|discriminate].
  - destruct (parseURL_scheme_default hostWorld "example.com:80"
                (mkURL "" "example.com:80" "" "") eq_refl eq_refl)
      as (u' & -> & Hh & Hpa & Hq & Hs & _ & _).
    destruct u' as [sch h pa q]. simpl in *.
    rewrite Hh, Hpa, Hq, Hs; reflexivity.
Defined.

End ParseURL.

(** ** The request loop: [newRequest] and [visit] *)

Module Visit.

(** [const maxRedirects = 10] *)
Definition maxRedirects : Z := 10.

(** [func headerKeyValue(h string) (string, string)]; [None] is the
    [log.Fatalf] on a header without colon. *)
Definition headerKeyValue (h : string) : option (string * string) :=
  match GoStrings.cutAt ":"%char h with
  | None => None
  | Some (l, r) => Some (GoStrings.TrimRight l " ", GoStrings.TrimLeft r " :")
  end.

(** [strings.EqualFold(k, "host")]: each letter in either case; Unicode's
    simple folding also takes the long s, bytes 197 and 191 in UTF-8,
    for an [s]. *)
Definition either (l u c : ascii) : bool := Ascii.eqb c l || Ascii.eqb c u.

Definition EqualFoldHost (k : string) : bool :=
  match list_ascii_of_string k with
  | [h; o; s; t] =>
      either "h"%char "H"%char h && either "o"%char "O"%char o
      && either "s"%char "S"%char s && either "t"%char "T"%char t
  | [h; o; s1; s2; t] =>
      either "h"%char "H"%char h && either "o"%char "O"%char o
      && Ascii.eqb s1 "197"%char && Ascii.eqb s2 "191"%char
      && either "t"%char "T"%char t
  | _ => false
  end.

(** Why [log.Fatal] ended the run. *)
Inductive FatalReason : Type :=
| OpenDataFile (filename : string)
| CreateRequest
| InvalidHeader (h : string)
| TransportSetup (msg : string)
| ReadResponse
| ReadBody (msg : string)
| FollowRedirect (msg : string)
| MaxRedirects.

(** The loop over [httpHeaders] in [newRequest]. *)
Fixpoint addHeaders (hs : list string) (req : Request)
  : FatalReason + Request :=
  match hs with
  | [] => inr req
  | h :: hs' =>
      match headerKeyValue h with
      | None => inl (InvalidHeader h)
      | Some (k, v) =>
          if EqualFoldHost k
          then addHeaders hs'
                 (mkRequest (Method req) (reqURL req) v (reqHeader req))
          else addHeaders hs'
                 (mkRequest (Method req) (reqURL req) (reqHost req)
                            (reqHeader req ++ [(k, v)]))
      end
  end.

(** [func createBody(body string) io.Reader]: a body [@file] opens the
    file, and the run ends when that fails. *)
Definition createBody (w : World) (body : string) : option FatalReason :=
  if GoStrings.HasPrefix body "@" then
    let filename := String.substring 1 (String.length body - 1) body in
    if osOpen w filename then None else Some (OpenDataFile filename)
  else None.

(** [func newRequest(method string, url *url.URL, body string)]; its
    argument [createBody(body)] is evaluated before [http.NewRequest]
    runs. *)
Definition newRequest (fl : Flags) (w : World) (url : URL)
  : FatalReason + Request :=
  match createBody w (postBody fl) with
  | Some why => inl why
  | None =>
      if negb (NewRequestOk w (httpMethod fl) url) then inl CreateRequest
      else addHeaders (httpHeaders fl)
                      (mkRequest (httpMethod fl) url (Host url) [])
  end.

(** What a run does that can be seen from outside, in the order it does
    it.  [Follow loc c] is the call [visit(loc)], made when the counter of
    redirects has the value [c]. *)
Inductive Event : Type :=
| NewRequest (url : URL)
| Warning (msg : string)
| Sleep (d : Z)
| Do (n : nat) (url : URL)
| BodyIO (e : Body.IOEvent)
| Report (status : Z)
| Follow (loc : URL) (c : Z).

(** The package variable [redirectsFollowed], the number of requests the
    process has issued, and what it has done so far, latest first. *)
Record State : Type := mkState {
  redirectsFollowed : Z;
  requests : nat;
  trace : list Event
}.

Definition initState : State := mkState 0 0 [].

Definition log (e : Event) (st : State) : State :=
  mkState (redirectsFollowed st) (requests st) (e :: trace st).

Definition logAll (es : list Event) (st : State) : State :=
  mkState (redirectsFollowed st) (requests st) (rev es ++ trace st).

(** The events in the order they happened. *)
Definition history (st : State) : list Event := rev (trace st).

Inductive Outcome : Type :=
| Returned
| Fatal (why : FatalReason)
| OutOfFuel.

(** The [for] loop of [visit], [left] passes to go, [i] the loop
    variable; [follow] is the recursive call [visit(loc)].  [client.Do]
    answering [None] stands for every way the exchange ends the process:
    its own error or the failed connect of the trace callback. *)
Fixpoint visitLoop (follow : URL -> State -> Outcome * State)
                   (fl : Flags) (w : World) (url : URL) (req : Request)
                   (i : Z) (left : nat) (st : State) : Outcome * State :=
  match left with
  | O => (Returned, st)
  | S left' =>
      let st := if 0 <? i then log (Sleep (requestDelay fl)) st else st in
      let n := requests st in
      let st := mkState (redirectsFollowed st) (S n) (Do n url :: trace st) in
      match clientDo w n url with
      | None => (Fatal ReadResponse, st)
      | Some resp =>
          let (io, r) := Body.readResponseBody fl w req resp in
          let st := logAll (map BodyIO io) st in
          match r with
          | Body.Fatal msg => (Fatal (ReadBody msg), st)
          | Body.Returned _ =>
              let st := log (Report (StatusCode resp)) st in
              if followRedirects fl && Body.isRedirect resp then
                match Location resp with
                | ErrNoLocation => (Returned, st)
                | ErrLocation msg => (Fatal (FollowRedirect msg), st)
                | LocationURL loc =>
                    let c := redirectsFollowed st + 1 in
                    let st := mkState c (requests st) (trace st) in
                    if maxRedirects <? c then (Fatal MaxRedirects, st)
                    else
                      match follow loc (log (Follow loc c) st) with
                      | (Returned, st') =>
                          visitLoop follow fl w url req (i + 1) left' st'
                      | stopped => stopped
                      end
                end
              else visitLoop follow fl w url req (i + 1) left' st
          end
      end
  end.

(** [func visit(url *url.URL)]: the request is built, the transport is
    set up, the loop runs [numRequests] times. *)
Fixpoint visit (fuel : nat) (fl : Flags) (w : World) (url : URL) (st : State)
  : Outcome * State :=
  match fuel with
  | O => (OutOfFuel, st)
  | S fuel' =>
      match newRequest fl w url with
      | inl why => (Fatal why, st)
      | inr req =>
          let st := log (NewRequest url) st in
          match Transport.configure fl w url req with
          | Transport.SetupFatal ws msg =>
              (Fatal (TransportSetup msg), logAll (map Warning ws) st)
          | Transport.Configured ws _ =>
              visitLoop (visit fuel' fl w) fl w url req 0
                        (Z.to_nat (numRequests fl))
                        (logAll (map Warning ws) st)
          end
      end
  end.

(** [visit(url)] as [main] calls it: the counter is zero, and no chain
    of calls is deeper than the ceiling allows. *)
Definition run (fl : Flags) (w : World) (url : URL) : Outcome * State :=
  visit (S (Z.to_nat maxRedirects)) fl w url initState.

(** *** Counting the redirects that were followed *)

Definition isFollow (e : Event) : bool :=
  match e with Follow _ _ => true | _ => false end.

(** The number of calls [visit(loc)] in a trace. *)
Definition follows (t : list Event) : nat :=
  List.length (filter isFollow t).

(** Every redirect was followed with the counter at its rank: the first
    at 1, the second at 2, and so on.  The trace is latest first. *)
Fixpoint wellCounted (t : list Event) : Prop :=
  match t with
  | [] => True
  | Follow _ c :: t' => c = Z.of_nat (S (follows t')) /\ wellCounted t'
  | _ :: t' => wellCounted t'
  end.

(** The counter is the number of redirects followed so far, and not
    above the ceiling. *)
Definition counted (st : State) : Prop :=
  redirectsFollowed st = Z.of_nat (follows (trace st)) /\
  redirectsFollowed st <= maxRedirects /\
  wellCounted (trace st).

(** What holds when a call ends, however it ends: the counter is the
    number of redirects followed, except after the fatal error of the
    ceiling, where it is one more, namely 11, and the last thing done is
    the report of the redirect just received. *)
Definition counterAfter (o : Outcome) (st : State) : Prop :=
  match o with
  | Fatal MaxRedirects =>
      redirectsFollowed st = Z.of_nat (follows (trace st)) + 1 /\
      redirectsFollowed st = maxRedirects + 1 /\
      exists s n u t, trace st = Report s :: Do n u :: t
  | _ =>
      redirectsFollowed st = Z.of_nat (follows (trace st)) /\
      redirectsFollowed st <= maxRedirects
  end.

(** A call from [st] ended well in [r]: it ended, the counter did not go
    down and it stays below 12, and the trace is still well counted. *)
Definition endsWell (st : State) (r : Outcome * State) : Prop :=
  fst r <> OutOfFuel /\
  redirectsFollowed st <= redirectsFollowed (snd r) /\
  wellCounted (trace (snd r)) /\
  counterAfter (fst r) (snd r).

(** *** The events of the passes *)




Definition isDo (e : Event) : bool :=
  match e with Do _ _ => true | _ => false end.

Definition count (p : Event -> bool) (es : list Event) : nat :=
  List.length (filter p es).

(** *** Sample sites and flags *)

(** Two sites: [a.test] answers every request with a redirect to
    [b.test], which answers [200]; and a site that redirects to itself for
    ever. *)
Definition siteA : URL := mkURL "http" "a.test" "/" "".
Definition siteB : URL := mkURL "http" "b.test" "/x" "".

Definition redirectingWorld : World :=
  {| ParseMediaType := fun _ => None;
     osCreate := fun _ => true;
     osOpen := fun _ => true;
     osWriteErr := fun _ => false;
     NoColor := true;
     ReadFile := fun _ => None;
     CertsFromPEM := fun _ => [];
     KeyPairFromPEM := fun _ => None;
     SplitHostPort := fun _ => None;
     ConfigureHTTP2 := true;
     urlParse := fun _ => None;
     NewRequestOk := fun _ _ => true;
     clientDo := fun _ u =>
       if (Host u =? "a.test")%string
       then Some (mkResponse 302 "" (LocationURL siteB) false)
       else Some (mkResponse 200 "" ErrNoLocation false) |}.

Definition loopWorld : World :=
  {| ParseMediaType := fun _ => None;
     osCreate := fun _ => true;
     osOpen := fun _ => true;
     osWriteErr := fun _ => false;
     NoColor := true;
     ReadFile := fun _ => None;
     CertsFromPEM := fun _ => [];
     KeyPairFromPEM := fun _ => None;
     SplitHostPort := fun _ => None;
     ConfigureHTTP2 := true;
     urlParse := fun _ => None;
     NewRequestOk := fun _ _ => true;
     clientDo := fun _ _ => Some (mkResponse 302 "" (LocationURL siteA) false) |}.

(** [-L] and [-L -n 2]. *)
Definition flagsL : Flags :=
  {| httpMethod := "GET"; postBody := ""; followRedirects := true;
     insecure := false; httpHeaders := []; saveOutput := false;
     outputFile := ""; clientCertFile := ""; cacert := "";
     jsonOutput := false; numRequests := 1; requestDelay := 3000000000 |}.
Definition flagsLn2 : Flags :=
  {| httpMethod := "GET"; postBody := ""; followRedirects := true;
     insecure := false; httpHeaders := []; saveOutput := false;
     outputFile := ""; clientCertFile := ""; cacert := "";
     jsonOutput := false; numRequests := 2; requestDelay := 3000000000 |}.

(** A world whose every answer is a [200] with a body that fails to
    read. *)
Definition brokenBodyWorld : World :=
  {| ParseMediaType := fun _ => None;
     osCreate := fun _ => true;
     osOpen := fun _ => true;
     osWriteErr := fun _ => false;
     NoColor := true;
     ReadFile := fun _ => None;
     CertsFromPEM := fun _ => [];
     KeyPairFromPEM := fun _ => None;
     SplitHostPort := fun _ => None;
     ConfigureHTTP2 := true;
     urlParse := fun _ => None;
     NewRequestOk := fun _ _ => true;
     clientDo := fun _ _ => Some Body.broken200 |}.

(** [-n 2] *)
Definition flagsN2 : Flags :=
  {| httpMethod := "GET"; postBody := ""; followRedirects := false;
     insecure := false; httpHeaders := []; saveOutput := false;
     outputFile := ""; clientCertFile := ""; cacert := "";
     jsonOutput := false; numRequests := 2; requestDelay := 3000000000 |}.

(** *** The counter and the ceiling *)

Lemma follows_cons e t :
  follows (e :: t) = if isFollow e then S (follows t) else follows t.
Proof. unfold follows. simpl. now destruct (isFollow e). Qed.

Lemma follows_app_quiet es t :
  forallb (fun e => negb (isFollow e)) es = true ->
  follows (es ++ t) = follows t.
Proof.
  induction es as [|e es IH]; simpl; [reflexivity|].
  rewrite Bool.andb_true_iff. intros [He Hes].
  rewrite follows_cons.
  destruct (isFollow e); [discriminate|]. now apply IH.
Qed.

Lemma wellCounted_app_quiet es t :
  forallb (fun e => negb (isFollow e)) es = true ->
  wellCounted t -> wellCounted (es ++ t).
Proof.
  induction es as [|e es IH]; simpl; [auto|].
  rewrite Bool.andb_true_iff. intros [He Hes] Ht.
  destruct e; simpl in He; try discriminate; now apply IH.
Qed.

Lemma quiet_rev_map {A} (f : A -> Event) (l : list A) :
  (forall a, isFollow (f a) = false) ->
  forallb (fun e => negb (isFollow e)) (rev (map f l)) = true.
Proof.
  intros Hf. apply forallb_forall. intros e He.
  apply in_rev, in_map_iff in He. destruct He as (a & <- & _).
  now rewrite Hf.
Qed.

Lemma counted_log e st :
  isFollow e = false -> counted st -> counted (log e st).
Proof.
  intros He (Hc & Hm & Hw). repeat split; simpl.
  - now rewrite follows_cons, He.
  - exact Hm.
  - destruct e; simpl in *; try discriminate; exact Hw.
Qed.

Lemma counted_logAll {A} (f : A -> Event) (l : list A) st :
  (forall a, isFollow (f a) = false) ->
  counted st -> counted (logAll (map f l) st).
Proof.
  intros Hf (Hc & Hm & Hw). repeat split; simpl.
  - rewrite follows_app_quiet; [exact Hc | now apply quiet_rev_map].
  - exact Hm.
  - apply wellCounted_app_quiet; [now apply quiet_rev_map | exact Hw].
Qed.

Lemma endsWell_stop st st' why :
  why <> MaxRedirects ->
  redirectsFollowed st <= redirectsFollowed st' ->
  counted st' -> endsWell st (Fatal why, st').
Proof.
  intros Hwhy Hle (Hc & Hm & Hw). repeat split; simpl; auto; try discriminate.
  destruct why; try (split; assumption). contradiction.
Qed.

Lemma endsWell_return st st' :
  redirectsFollowed st <= redirectsFollowed st' ->
  counted st' -> endsWell st (Returned, st').
Proof.
  intros Hle (Hc & Hm & Hw). repeat split; simpl; auto; discriminate.
Qed.

Lemma endsWell_from st0 st r :
  redirectsFollowed st0 <= redirectsFollowed st ->
  endsWell st r -> endsWell st0 r.
Proof.
  intros Hle (H1 & H2 & H3 & H4). repeat split; auto. lia.
Qed.

Lemma endsWell_Returned_counted st st' :
  endsWell st (Returned, st') -> counted st'.
Proof.
  intros (_ & _ & Hw & Hc & Hm). simpl in *. repeat split; assumption.
Qed.

Lemma addHeaders_below_ceiling hs : forall req why,
  addHeaders hs req = inl why -> why <> MaxRedirects.
Proof.
  induction hs as [|h hs IH]; simpl; intros req why; [discriminate|].
  destruct (headerKeyValue h) as [[k v]|]; [|congruence].
  destruct (EqualFoldHost k); apply IH.
Qed.

(** [newRequest] never ends the run for the ceiling of redirects. *)
Lemma newRequest_below_ceiling fl w url why :
  newRequest fl w url = inl why -> why <> MaxRedirects.
Proof.
  unfold newRequest, createBody.
  destruct (GoStrings.HasPrefix (postBody fl) "@");
    [destruct (osOpen w _); [|congruence]|];
    (destruct (negb (NewRequestOk w (httpMethod fl) url));
     [congruence | apply addHeaders_below_ceiling]).
Qed.

(** The loop ends well when the recursive call does, on every state it
    can be called in. *)
Lemma visitLoop_endsWell follow fl w url req lo :
  (forall loc st, counted st -> lo < redirectsFollowed st ->
                  endsWell st (follow loc st)) ->
  forall left i st, counted st -> lo <= redirectsFollowed st ->
    endsWell st (visitLoop follow fl w url req i left st).
Proof.
  intros Hfollow. induction left as [|left IH]; intros i st Hst Hlo.
  - simpl. apply endsWell_return; [lia | exact Hst].
  - cbn [visitLoop].
    set (st1 := if 0 <? i then log (Sleep (requestDelay fl)) st else st).
    assert (H1 : counted st1 /\ redirectsFollowed st1 = redirectsFollowed st).
    { subst st1. destruct (0 <? i); [|auto].
      split; [now apply counted_log | reflexivity]. }
    destruct H1 as [H1 E1].
    set (st2 := mkState (redirectsFollowed st1) (S (requests st1))
                        (Do (requests st1) url :: trace st1)).
    assert (H2 : counted st2) by (apply (counted_log (Do (requests st1) url) (mkState (redirectsFollowed st1) (S (requests st1)) (trace st1))); [reflexivity | exact H1]).
    destruct (clientDo w (requests st1) url) as [resp|].
    2:{ apply endsWell_stop; [discriminate | simpl; lia | exact H2]. }
    destruct (Body.readResponseBody fl w req resp) as [io r] eqn:Hbody.
    assert (H3 : counted (logAll (map BodyIO io) st2))
      by (now apply counted_logAll).
    destruct r as [msg|msg].
    2:{ apply endsWell_stop; [discriminate | simpl; lia | exact H3]. }
    set (st4 := log (Report (StatusCode resp)) (logAll (map BodyIO io) st2)).
    assert (H4 : counted st4) by (now apply counted_log).
    assert (E4 : redirectsFollowed st4 = redirectsFollowed st) by (simpl; lia).
    destruct (followRedirects fl && Body.isRedirect resp) eqn:Hred.
    2:{ eapply endsWell_from; [|apply IH; [exact H4 | lia]]. lia. }
    apply Bool.andb_true_iff in Hred. destruct Hred as [_ Hred].
    destruct (Location resp) as [loc| |msg'].
    + set (c := redirectsFollowed st4 + 1).
      destruct H4 as (Hc4 & Hm4 & Hw4).
      destruct (Z.ltb_spec maxRedirects c) as [Hmax|Hmax].
      * rewrite (Body.redirect_returns_at_once fl w req resp Hred) in Hbody.
        injection Hbody as <- _.
        unfold endsWell, counterAfter. cbn [fst snd redirectsFollowed trace].
        split; [discriminate|]. split; [subst c; lia|].
        split; [exact Hw4|]. split; [subst c; lia|].
        split; [subst c; unfold maxRedirects in *; lia|].
        now exists (StatusCode resp), (requests st1), url, (trace st1).
      * set (st6 := log (Follow loc c)
                        (mkState c (requests st4) (trace st4))).
        assert (H6 : counted st6).
        { unfold counted, st6, log. cbn [redirectsFollowed trace wellCounted].
          rewrite follows_cons. cbn [isFollow].
          repeat split; [subst c; lia | exact Hmax | subst c; lia | exact Hw4]. }
        assert (Hlt : lo < redirectsFollowed st6) by (simpl; subst c; lia).
        pose proof (Hfollow loc st6 H6 Hlt) as Hf.
        destruct (follow loc st6) as [[| why |] st'] eqn:Hres.
        -- pose proof (endsWell_Returned_counted _ _ Hf) as Hst'.
           destruct Hf as (_ & Hle & _). simpl in Hle.
           eapply endsWell_from; [|apply IH; [exact Hst' | lia]].
           subst c. lia.
        -- eapply endsWell_from; [|exact Hf]. simpl. subst c. lia.
        -- destruct Hf as (Hf & _). now elim Hf.
    + apply endsWell_return; [lia | exact H4].
    + apply endsWell_stop; [discriminate | lia | exact H4].
Qed.

(** [visit] ends well, with fuel for the redirects the ceiling leaves. *)
Lemma visit_endsWell fl w : forall fuel url st,
  counted st ->
  (Z.to_nat (maxRedirects + 1 - redirectsFollowed st) <= fuel)%nat ->
  endsWell st (visit fuel fl w url st).
Proof.
  induction fuel as [|fuel IH]; intros url st Hst Hfuel.
  - destruct Hst as (_ & Hm & _). unfold maxRedirects in *. lia.
  - cbn [visit].
    destruct (newRequest fl w url) as [why|req] eqn:Hreq.
    { apply endsWell_stop; [|lia|exact Hst].
      exact (newRequest_below_ceiling fl w url why Hreq). }
    assert (H1 : counted (log (NewRequest url) st)) by (now apply counted_log).
    destruct (Transport.configure fl w url req) as [ws cfg|ws msg].
    + eapply endsWell_from;
        [|apply (visitLoop_endsWell (visit fuel fl w) fl w url req
                   (redirectsFollowed st))].
      * simpl. lia.
      * intros loc st2 H2 Hlt. apply IH; [exact H2|].
        destruct H2 as (_ & Hm2 & _). unfold maxRedirects in *. lia.
      * now apply counted_logAll.
      * simpl. lia.
    + apply endsWell_stop; [discriminate | simpl; lia |].
      now apply counted_logAll.
Qed.

Lemma counted_initState : counted initState.
Proof. repeat split; simpl; unfold maxRedirects; lia. Qed.

Lemma run_endsWell fl w url : endsWell initState (run fl w url).
Proof.
  apply visit_endsWell; [exact counted_initState|].
  simpl. unfold maxRedirects. lia.
Qed.

(** The pass of the loop that meets a redirect with the counter at the
    ceiling: the run is ended, and [follow] is not called. *)
Lemma visitLoop_at_ceiling follow fl w url req i left st resp loc :
  followRedirects fl = true ->
  redirectsFollowed st = maxRedirects ->
  clientDo w (requests st) url = Some resp ->
  Body.isRedirect resp = true ->
  Location resp = LocationURL loc ->
  visitLoop follow fl w url req i (S left) st =
    (Fatal MaxRedirects,
     mkState (maxRedirects + 1) (S (requests st))
             (Report (StatusCode resp) :: Do (requests st) url
                :: (if 0 <? i then [Sleep (requestDelay fl)] else [])
                ++ trace st)).
Proof.
  intros HL Hc Hdo Hred Hloc. cbn [visitLoop].
  assert (E : requests (if 0 <? i then log (Sleep (requestDelay fl)) st else st)
              = requests st) by (now destruct (0 <? i)).
  rewrite E, Hdo, (Body.redirect_returns_at_once fl w req resp Hred).
  rewrite HL, Hred, Hloc. cbn.
  destruct (0 <? i); cbn; rewrite Hc; reflexivity.
Qed.

(** C3: in a run of [visit] from [main], whatever the flags and the
    answers of the network, the [k]-th redirect is followed with the
    counter at [k], and when the run ends otherwise than by the ceiling
    the counter is the number of redirects followed in the whole run, all
    passes of the repeat loop together; no more than 10 are followed; when
    the run ends by the ceiling, 10 were followed, the counter is 11, and
    the last thing done is the report of the redirect just received: no
    request to its target was built or sent.  A redirect met with the
    counter at 10 ends the run in that way. *)
Theorem redirect_counter_run fl w url :
  fst (run fl w url) <> OutOfFuel /\
  wellCounted (trace (snd (run fl w url))) /\
  (follows (trace (snd (run fl w url))) <= 10)%nat /\
  (fst (run fl w url) <> Fatal MaxRedirects ->
     redirectsFollowed (snd (run fl w url)) =
       Z.of_nat (follows (trace (snd (run fl w url))))) /\
  (fst (run fl w url) = Fatal MaxRedirects ->
     follows (trace (snd (run fl w url))) = 10%nat /\
     redirectsFollowed (snd (run fl w url)) = 11 /\
     exists s n u t, trace (snd (run fl w url)) = Report s :: Do n u :: t) /\
  (forall follow target req i left st resp loc,
     followRedirects fl = true ->
     redirectsFollowed st = maxRedirects ->
     clientDo w (requests st) target = Some resp ->
     Body.isRedirect resp = true ->
     Location resp = LocationURL loc ->
     visitLoop follow fl w target req i (S left) st =
       (Fatal MaxRedirects,
        mkState (maxRedirects + 1) (S (requests st))
                (Report (StatusCode resp) :: Do (requests st) target
                   :: (if 0 <? i then [Sleep (requestDelay fl)] else [])
                   ++ trace st))).
Proof.
  destruct (run_endsWell fl w url) as (Hfuel & _ & Hw & Hc).
  destruct (run fl w url) as [o st]. cbn [fst snd] in *.
  split; [exact Hfuel|]. split; [exact Hw|].
  unfold counterAfter, maxRedirects in Hc.
  split; [|split; [|split]].
  - destruct o as [|[]|]; lia.
  - intros Hne. destruct o as [|[]|]; tauto.
  - intros ->. destruct Hc as (H1 & H2 & H3).
    split; [lia|]. split; [lia|exact H3].
  - intros. eapply visitLoop_at_ceiling; eassumption.
Qed.

(** C3 on two runs.  With [-L -n 2] on the site that redirects once, both
    passes of the repeat loop follow a redirect, the second with the
    counter at 2, and the run ends with the counter at 2.  With [-L] on
    the site that redirects for ever, the run is ended by the ceiling
    after 11 requests, the counter at 11. *)
Lemma redirect_counter_run_witness :
  (fst (run flagsLn2 redirectingWorld siteA) = Returned /\
   filter isFollow (history (snd (run flagsLn2 redirectingWorld siteA))) =
     [Follow siteB 1; Follow siteB 2] /\
   redirectsFollowed (snd (run flagsLn2 redirectingWorld siteA)) = 2) /\
  (fst (run flagsL loopWorld siteA) = Fatal MaxRedirects /\
   requests (snd (run flagsL loopWorld siteA)) = 11%nat /\
   redirectsFollowed (snd (run flagsL loopWorld siteA)) = 11).
Proof.
  split.
  - destruct (redirect_counter_run flagsLn2 redirectingWorld siteA)
      as (_ & _ & _ & Hc & _).
    split; [reflexivity|]. split; [reflexivity|].
    rewrite Hc; [reflexivity | discriminate].
  - destruct (redirect_counter_run flagsL loopWorld siteA)
      as (_ & _ & _ & _ & Hmax & _).
    split; [reflexivity|]. split; [reflexivity|].
    now apply Hmax.
Defined.

(** *** The passes of the loop *)

Lemma count_app p es es' : count p (es ++ es') = (count p es + count p es')%nat.
Proof. unfold count. now rewrite filter_app, length_app. Qed.

Lemma count_cons p e es :
  count p (e :: es) = ((if p e then 1 else 0) + count p es)%nat.
Proof. unfold count. simpl. now destruct (p e). Qed.







(** C5, as the claim states it, fails in the default mode, where the
    body is discarded: reading it fails, [readResponseBody] returns its
    message as if nothing had happened, and the run goes on to print the
    report of the exchange and returns. *)
Lemma body_read_error_swallowed :
  BodyErr Body.broken200 = true /\
  Body.readResponseBody defaultFlags brokenBodyWorld Body.getRoot
                        Body.broken200 =
    ([Body.Copy None], Body.Returned "Body discarded") /\
  fst (run defaultFlags brokenBodyWorld siteA) = Returned /\
  history (snd (run defaultFlags brokenBodyWorld siteA)) =
    [NewRequest siteA; Do 0 siteA; BodyIO (Body.Copy None); Report 200].
Proof. repeat split; reflexivity. Qed.






End Visit.

(** ** More on the trace callbacks: encrypted exchanges, untouched
    fields, connect attempts *)

Module TraceFacts.

Import Trace.





Definition isConnectStart (e : Event) : bool :=
  match e with ConnectStart => true | _ => false end.
Definition isFailedConnect (e : Event) : bool :=
  match e with ConnectDone _ err => err | _ => false end.





(** *** Elapsed times that add up *)





Section AnyExchange.

Variable clock : nat -> Time.
Hypothesis clock_mono : forall i j, (i <= j)%nat -> clock i <= clock j.
Hypothesis clock_span : forall i j, clock j - clock i <= maxDuration.









End AnyExchange.

(** *** Fields and marks that no callback touches *)

(** What a callback of another kind leaves alone, all the callbacks of
    an exchange leave alone. *)
Lemma fire_frame {A} (clock : nat -> Time) (p : Event -> bool) (f : Vars -> A) :
  (forall e n v n' v', p e = false ->
     callback clock e n v = Some (n', v') -> f v' = f v) ->
  forall evs n v n' v',
    existsb p evs = false ->
    fire clock evs n v = Some (n', v') -> f v' = f v.
Proof.
  intros Hstep. induction evs as [|e evs IH]; simpl; intros n v n' v' Hno Hfire.
  - now injection Hfire as _ <-.
  - apply Bool.orb_false_iff in Hno. destruct Hno as [He Hevs].
    destruct (callback clock e n v) as [[n1 v1]|] eqn:Hcb; [|discriminate].
    rewrite (IH _ _ _ _ Hevs Hfire). exact (Hstep _ _ _ _ _ He Hcb).
Qed.

Ltac frame_step :=
  let e := fresh "e" in
  let H := fresh "H" in
  let Hcb := fresh "Hcb" in
  intros e ? ? ? ? H Hcb; destruct e; try discriminate H;
  unfold callback in Hcb;
  repeat match type of Hcb with
  | context [if ?c then _ else _] => destruct c
  end;
  try discriminate Hcb; injection Hcb as <- <-; reflexivity.



(** The mark of the first connect attempt is kept: once the first
    [ConnectStart] has read the clock, no later callback moves
    [tConnectStart], so [TCP] is measured from the first attempt. *)
Theorem first_connect_start_kept clock pre post n0 n1 v1 n2 v2 :
  existsb isConnectStart pre = false ->
  fire clock pre n0 initVars = Some (n1, v1) ->
  clock n1 <> 0 ->
  fire clock (ConnectStart :: post) n1 v1 = Some (n2, v2) ->
  tConnectStart v2 = clock n1.
Proof.
  intros Hpre Hfire Hpos Hpost.
  assert (Hz : tConnectStart v1 = 0).
  { rewrite (fun Hs => fire_frame clock isConnectStart tConnectStart
                         Hs pre _ _ _ _ Hpre Hfire);
      [reflexivity | frame_step]. }
  cbn [fire callback] in Hpost. rewrite Hz in Hpost. cbn in Hpost.
  assert (Hkeep : forall evs n v n' v',
             tConnectStart v <> 0 -> fire clock evs n v = Some (n', v') ->
             tConnectStart v' = tConnectStart v).
  { induction evs as [|e evs IH]; simpl; intros n v n' v' Hv Hf.
    - now injection Hf as _ <-.
    - destruct (callback clock e n v) as [[na va]|] eqn:Hcb; [|discriminate].
      assert (Ha : tConnectStart va = tConnectStart v).
      { destruct e; unfold callback in Hcb;
          try (injection Hcb as <- <-; reflexivity).
        - unfold IsZero in Hcb. destruct (Z.eqb_spec (tConnectStart v) 0);
            [contradiction|]. now injection Hcb as _ <-.
        - destruct err; [discriminate|]. now injection Hcb as _ <-. }
      assert (Hne : tConnectStart va <> 0) by (now rewrite Ha).
      rewrite (IH _ _ _ _ Hne Hf). exact Ha. }
  now rewrite (Hkeep post (S n1) (set_tConnectStart (clock n1) v1) n2 v2
                     Hpos Hpost).
Qed.

Lemma first_connect_start_kept_witness :
  exists n2 v2,
    fire Trace.sampleClock
         ([GetConn; DNSStart; DNSDone]
          ++ ConnectStart
             :: [ConnectStart; ConnectDone "192.0.2.1:80" false; ConnectStart])
         0 initVars = Some (n2, v2) /\
    tConnectStart v2 = Trace.sampleClock 4.
Proof.
  eexists. eexists. split; [reflexivity|].
  eapply (first_connect_start_kept Trace.sampleClock
            [GetConn; DNSStart; DNSDone]
            [ConnectStart; ConnectDone "192.0.2.1:80" false; ConnectStart]
            0 4);
    [reflexivity | reflexivity | now vm_compute | reflexivity].
Defined.

(** A failed connect attempt ends the exchange, wherever it comes in
    the sequence and whatever other attempt succeeds: the callbacks run
    to their end if and only if no [ConnectDone] carries an error. *)
Theorem failed_connect_is_fatal clock evs n v :
  fire clock evs n v = None <-> existsb isFailedConnect evs = true.
Proof.
  revert n v. induction evs as [|e evs IH]; simpl; intros n v.
  - split; discriminate.
  - destruct (callback clock e n v) as [[n1 v1]|] eqn:Hcb.
    + assert (He : isFailedConnect e = false).
      { destruct e; try reflexivity. simpl in *. now destruct err. }
      rewrite He. simpl. apply IH.
    + assert (He : isFailedConnect e = true).
      { destruct e; unfold callback in Hcb;
          repeat match type of Hcb with
          | context [if ?c then _ else _] => destruct c
          end; try discriminate Hcb; reflexivity. }
      rewrite He. simpl. tauto.
Qed.





End TraceFacts.

(** ** More on the request loop: how many requests, where to, and what a
    [HEAD] run leaves alone *)

Module VisitFacts.

Import Visit.

Definition isBodyIO (e : Event) : bool :=
  match e with BodyIO _ => true | _ => false end.

(** An event of a run that stays on [url]: no redirect is followed, and
    requests are built for and sent to [url] only. *)
Definition staysOn (url : URL) (e : Event) : Prop :=
  match e with
  | NewRequest u => u = url
  | Do _ u => u = url
  | Follow _ _ => False
  | _ => True
  end.

(** The requests sent are the [Do] events of the trace. *)
Definition numbered (st : State) : Prop :=
  count isDo (trace st) = requests st.

(** What a call from [st] costs: at most [budget] requests, and [per]
    more for every redirect followed meanwhile. *)
Definition costs (per budget : nat) (st : State) (r : Outcome * State) : Prop :=
  (requests (snd r) + per * follows (trace st)
   <= requests st + budget + per * follows (trace (snd r)))%nat.


(** A run that has not touched a response body. *)
Definition noBody (st : State) : Prop :=
  Forall (fun e => isBodyIO e = false) (trace st).


Definition flagsHeadO : Flags :=
  {| httpMethod := "HEAD"; postBody := ""; followRedirects := true;
     insecure := false; httpHeaders := []; saveOutput := true;
     outputFile := ""; clientCertFile := ""; cacert := "";
     jsonOutput := false; numRequests := 2; requestDelay := 3000000000 |}.

(** *** How many requests a run sends *)

Ltac pass_cases follow :=
  cbn [visitLoop];
  repeat match goal with
  | |- context [match clientDo ?w ?n ?u with _ => _ end] =>
      destruct (clientDo w n u) eqn:?
  | |- context [Body.readResponseBody ?a ?b ?c ?d] =>
      destruct (Body.readResponseBody a b c d) as [? [?|?]] eqn:?
  | |- context [if ?c then _ else _] => destruct c eqn:?
  | |- context [match Location ?r with _ => _ end] =>
      destruct (Location r) eqn:?
  | |- context [follow ?l ?s] =>
      destruct (follow l s) as [[| ? |] ?] eqn:?
  end.

Ltac norm_follows :=
  repeat (rewrite follows_cons
          || rewrite follows_app_quiet by (apply quiet_rev_map; reflexivity));
  cbn [isFollow].

Lemma count_rev_map_none {A} p (f : A -> Event) l t :
  (forall a, p (f a) = false) -> count p (rev (map f l) ++ t) = count p t.
Proof.
  intros Hf. rewrite count_app.
  assert (H : count p (rev (map f l)) = 0%nat).
  { induction l as [|a l IH]; [reflexivity|].
    cbn [map rev]. rewrite count_app, IH, count_cons, Hf. reflexivity. }
  now rewrite H.
Qed.

Ltac norm_count :=
  repeat (rewrite count_cons
          || rewrite count_rev_map_none by reflexivity);
  cbn [isDo].

(** The loop costs at most one request a pass, and what the calls
    [visit(loc)] cost. *)
Lemma visitLoop_costs follow fl w url req per :
  (forall loc st, costs per per st (follow loc st)) ->
  forall left i st,
    costs per left st (visitLoop follow fl w url req i left st).
Proof.
  intros Hfollow. unfold costs in *.
  induction left as [|left IH]; intros i st; [cbn; lia|].
  pass_cases follow; cbn [fst snd requests trace log logAll];
    norm_follows; try lia;
    match goal with
    | |- context [visitLoop follow fl w url req ?j left ?s] =>
        specialize (IH j s); revert IH;
        try match goal with
        | H : follow ?l ?s0 = (_, _) |- _ =>
            let Hc := fresh in
            pose proof (Hfollow l s0) as Hc; rewrite H in Hc; revert Hc
        end;
        cbn [fst snd requests trace log logAll]; norm_follows; nia
    | H : follow ?l ?s0 = (_, _) |- _ =>
        let Hc := fresh in
        pose proof (Hfollow l s0) as Hc; rewrite H in Hc; revert Hc;
        cbn [fst snd requests trace log logAll]; norm_follows; nia
    end.
Qed.

Lemma visit_costs fl w : forall fuel url st,
  costs (Z.to_nat (numRequests fl)) (Z.to_nat (numRequests fl)) st
        (visit fuel fl w url st).
Proof.
  induction fuel as [|fuel IH]; intros url st; unfold costs in *;
    [cbn; lia|].
  cbn [visit].
  destruct (newRequest fl w url) as [why|req]; [cbn; lia|].
  destruct (Transport.configure fl w url req) as [ws cfg|ws msg].
  - pose proof (visitLoop_costs (visit fuel fl w) fl w url req
                  (Z.to_nat (numRequests fl)) IH
                  (Z.to_nat (numRequests fl)) 0
                  (logAll (map Warning ws) (log (NewRequest url) st))) as H.
    unfold costs in H. revert H.
    cbn [fst snd requests trace log logAll]. norm_follows. lia.
  - cbn [fst snd requests trace log logAll]. norm_follows. lia.
Qed.

Lemma visitLoop_numbered follow fl w url req :
  (forall loc st, numbered st -> numbered (snd (follow loc st))) ->
  forall left i st,
    numbered st -> numbered (snd (visitLoop follow fl w url req i left st)).
Proof.
  intros Hfollow. unfold numbered in *.
  induction left as [|left IH]; intros i st Hst; [exact Hst|].
  pass_cases follow; cbn [fst snd requests trace log logAll];
    norm_count; try lia;
    try match goal with
    | H : follow ?l ?s0 = (_, _) |- _ =>
        let Hc := fresh in
        assert (Hc : count isDo (trace s0) = requests s0)
          by (cbn [fst snd requests trace log logAll]; norm_count; lia);
        apply (Hfollow l) in Hc; rewrite H in Hc; cbn [snd] in Hc
    end;
    try assumption;
    apply IH; try assumption;
    cbn [fst snd requests trace log logAll]; norm_count; lia.
Qed.

Lemma visit_numbered fl w : forall fuel url st,
  numbered st -> numbered (snd (visit fuel fl w url st)).
Proof.
  induction fuel as [|fuel IH]; intros url st Hst; [exact Hst|].
  cbn [visit].
  destruct (newRequest fl w url) as [why|req]; [exact Hst|].
  destruct (Transport.configure fl w url req) as [ws cfg|ws msg].
  - apply visitLoop_numbered; [exact (fun loc st => IH loc st)|].
    unfold numbered in *. cbn [requests trace log logAll]. norm_count. lia.
  - unfold numbered in *. cbn [snd requests trace log logAll]. norm_count. lia.
Qed.

(** Every request of a run is a [Do] event and the other way round; a
    run sends at most [numRequests] requests for the target and for each
    redirect it follows, so never more than 11 times [numRequests], and
    none at all when [numRequests] is zero or negative. *)
Theorem run_requests_bounded fl w url :
  count isDo (trace (snd (run fl w url))) = requests (snd (run fl w url)) /\
  (requests (snd (run fl w url))
   <= Z.to_nat (numRequests fl) * (1 + follows (trace (snd (run fl w url)))))%nat /\
  (requests (snd (run fl w url)) <= 11 * Z.to_nat (numRequests fl))%nat /\
  (numRequests fl <= 0 -> requests (snd (run fl w url)) = 0%nat).
Proof.
  assert (Hf : (follows (trace (snd (run fl w url))) <= 10)%nat).
  { destruct (run_endsWell fl w url) as (_ & _ & _ & Hcount).
    unfold counterAfter, maxRedirects in Hcount.
    destruct (fst (run fl w url)) as [|[]|]; lia. }
  pose proof (visit_numbered fl w (S (Z.to_nat maxRedirects)) url initState
                eq_refl) as Hn.
  pose proof (visit_costs fl w (S (Z.to_nat maxRedirects)) url initState) as Hc.
  fold (run fl w url) in Hn, Hc. unfold costs in Hc.
  change (follows (trace initState)) with 0%nat in Hc.
  change (requests initState) with 0%nat in Hc.
  split; [exact Hn|]. split; [lia|]. split; [nia|].
  intros Hz. replace (Z.to_nat (numRequests fl)) with 0%nat in Hc by lia. lia.
Qed.

(** *** Runs that follow nothing *)

Lemma visitLoop_without_L follow fl w url req :
  followRedirects fl = false ->
  forall left i st,
    redirectsFollowed (snd (visitLoop follow fl w url req i left st))
      = redirectsFollowed st /\
    (requests (snd (visitLoop follow fl w url req i left st))
     <= requests st + left)%nat /\
    fst (visitLoop follow fl w url req i left st) <> OutOfFuel /\
    (Forall (staysOn url) (trace st) ->
     Forall (staysOn url)
            (trace (snd (visitLoop follow fl w url req i left st)))).
Proof.
  intros HL. induction left as [|left IH]; intros i st.
  - cbn. repeat split; auto; try lia. discriminate.
  - cbn [visitLoop]. rewrite HL. cbn [andb].
    assert (Hio : forall (io : list Body.IOEvent) t,
               Forall (staysOn url) t ->
               Forall (staysOn url) (rev (map BodyIO io) ++ t)).
    { intros io t Ht. apply Forall_app. split; [|exact Ht].
      apply Forall_forall. intros e He.
      apply in_rev, in_map_iff in He. destruct He as (a & <- & _). exact I. }
    destruct (0 <? i);
      (destruct (clientDo w _ url) as [resp|];
       [destruct (Body.readResponseBody fl w req resp) as [io [msg|msg]];
        [match goal with
         | |- context [visitLoop follow fl w url req ?j left ?s] =>
             destruct (IH j s) as (H1 & H2 & H3 & H4)
         end;
         cbn [fst snd redirectsFollowed requests trace log logAll] in *;
         repeat split; try assumption; try lia;
         intros Ht; apply H4; repeat constructor; try apply Hio;
         repeat constructor; assumption
        |]
       |];
       cbn [fst snd redirectsFollowed requests trace log logAll];
       repeat split; try lia; try discriminate;
       intros Ht; try apply Hio; repeat constructor; assumption).
Qed.

(** Without [-L] a run follows nothing: the counter stays at zero, at
    most [numRequests] requests are sent, and every request is built for
    and sent to the URL given. *)
Theorem run_without_L_stays fl w url :
  followRedirects fl = false ->
  redirectsFollowed (snd (run fl w url)) = 0 /\
  (requests (snd (run fl w url)) <= Z.to_nat (numRequests fl))%nat /\
  Forall (staysOn url) (trace (snd (run fl w url))) /\
  fst (run fl w url) <> OutOfFuel.
Proof.
  intros HL. unfold run. cbn [visit].
  destruct (newRequest fl w url) as [why|req].
  { cbn. repeat split; try lia; [constructor | discriminate]. }
  destruct (Transport.configure fl w url req) as [ws cfg|ws msg].
  - destruct (visitLoop_without_L
                (visit (Z.to_nat maxRedirects) fl w) fl w url req HL
                (Z.to_nat (numRequests fl)) 0
                (logAll (map Warning ws) (log (NewRequest url) initState)))
      as (H1 & H2 & H3 & H4).
    repeat split; try assumption.
    apply H4. cbn. apply Forall_app. split.
    + apply Forall_forall. intros e He.
      apply in_rev, in_map_iff in He. destruct He as (a & <- & _). exact I.
    + repeat constructor.
  - cbn. repeat split; try lia; [|discriminate].
    apply Forall_app. split.
    + apply Forall_forall. intros e He.
      apply in_rev, in_map_iff in He. destruct He as (a & <- & _). exact I.
    + repeat constructor.
Qed.

Lemma run_without_L_stays_witness :
  redirectsFollowed (snd (run flagsN2 redirectingWorld siteA)) = 0 /\
  (requests (snd (run flagsN2 redirectingWorld siteA)) <= 2)%nat /\
  history (snd (run flagsN2 redirectingWorld siteA)) =
    [NewRequest siteA; Do 0 siteA; Report 302;
     Sleep 3000000000; Do 1 siteA; Report 302].
Proof.
  destruct (run_without_L_stays flagsN2 redirectingWorld siteA eq_refl)
    as (H1 & H2 & _).
  split; [exact H1|]. split; [exact H2 | reflexivity].
Defined.

(** *** A redirect that names no target *)



(** *** Runs with the method [HEAD] *)

Lemma addHeaders_keeps_method hs : forall req req',
  addHeaders hs req = inr req' ->
  Method req' = Method req /\ reqURL req' = reqURL req.
Proof.
  induction hs as [|h hs IH]; simpl; intros req req' H.
  - injection H as <-. now split.
  - destruct (headerKeyValue h) as [[k v]|]; [|discriminate].
    destruct (EqualFoldHost k); apply IH in H; exact H.
Qed.

Lemma newRequest_keeps_method fl w url req :
  newRequest fl w url = inr req ->
  Method req = httpMethod fl /\ reqURL req = url.
Proof.
  unfold newRequest. destruct (createBody w (postBody fl)); [discriminate|].
  destruct (negb (NewRequestOk w (httpMethod fl) url)); [discriminate|].
  intros H. apply addHeaders_keeps_method in H. exact H.
Qed.

Lemma visitLoop_noBody follow fl w url req :
  Method req = "HEAD" ->
  (forall loc st, noBody st -> noBody (snd (follow loc st))) ->
  forall left i st,
    noBody st -> noBody (snd (visitLoop follow fl w url req i left st)).
Proof.
  intros Hm Hfollow. unfold noBody in *.
  induction left as [|left IH]; intros i st Hst; [exact Hst|].
  cbn [visitLoop].
  assert (Hb : forall resp,
             Body.readResponseBody fl w req resp = ([], Body.Returned ""))
    by (intros resp; now apply Body.HEAD_returns_at_once).
  destruct (0 <? i);
    (destruct (clientDo w _ url) as [resp|];
     [rewrite Hb; cbn [map logAll log rev app redirectsFollowed requests trace];
      destruct (followRedirects fl && Body.isRedirect resp);
      [destruct (Location resp) as [loc| |msg];
       [destruct (maxRedirects <? _);
        [|match goal with
          | |- context [follow ?l ?s] =>
              let Hf := fresh in
              assert (Hf : Forall (fun e => isBodyIO e = false)
                                  (trace (snd (follow l s))))
                by (apply Hfollow; cbn [trace log];
                    repeat constructor; assumption);
              destruct (follow l s) as [[| ? |] ?]; cbn [snd] in Hf |- *;
              try exact Hf; apply IH; exact Hf
          end]
       | | ]
      |apply IH]
     |];
     cbn [snd trace]; repeat constructor; assumption).
Qed.

Lemma visit_noBody fl w :
  httpMethod fl = "HEAD" ->
  forall fuel url st, noBody st -> noBody (snd (visit fuel fl w url st)).
Proof.
  intros Hm. induction fuel as [|fuel IH]; intros url st Hst; [exact Hst|].
  cbn [visit].
  destruct (newRequest fl w url) as [why|req] eqn:Hreq; [exact Hst|].
  assert (Hlog : forall ws, noBody (logAll (map Warning ws)
                                           (log (NewRequest url) st))).
  { intros ws. unfold noBody in *. cbn. apply Forall_app. split.
    - apply Forall_forall. intros e He.
      apply in_rev, in_map_iff in He. now destruct He as (a & <- & _).
    - now constructor. }
  destruct (Transport.configure fl w url req) as [ws cfg|ws msg].
  - apply visitLoop_noBody; [|exact IH|apply Hlog].
    destruct (newRequest_keeps_method fl w url req Hreq) as [-> _]. exact Hm.
  - apply Hlog.
Qed.

(** A run whose method is [HEAD] never touches a body: no file is
    created, nothing is copied or closed, in the first exchange and in all
    the redirects it follows, whatever [-O] and [-o] say. *)
Theorem head_run_reads_no_body fl w url :
  httpMethod fl = "HEAD" ->
  Forall (fun e => isBodyIO e = false) (trace (snd (run fl w url))).
Proof.
  intros Hm. apply (visit_noBody fl w Hm). constructor.
Qed.

Lemma head_run_reads_no_body_witness :
  Forall (fun e => isBodyIO e = false)
         (trace (snd (run flagsHeadO redirectingWorld siteA))) /\
  requests (snd (run flagsHeadO redirectingWorld siteA)) = 6%nat.
Proof.
  split; [|reflexivity].
  exact (head_run_reads_no_body flagsHeadO redirectingWorld siteA eq_refl).
Defined.

(** *** The pauses between the passes *)












End VisitFacts.

(** ** More on the request: [headerKeyValue] and the headers of
    [newRequest] *)

Module RequestFacts.

Import Visit.

(** The bytes of a string that satisfy a test. *)
Fixpoint anyByte (p : ascii -> bool) (s : string) : bool :=
  match s with
  | EmptyString => false
  | String c s' => p c || anyByte p s'
  end.

Fixpoint allBytes (p : ascii -> bool) (s : string) : bool :=
  match s with
  | EmptyString => true
  | String c s' => p c && allBytes p s'
  end.

Definition isColon (c : ascii) : bool := Ascii.eqb c ":"%char.

(** The first byte of a string is not in a cutset: nothing for
    [TrimLeft] to take. *)
Definition startsOutside (cutset s : string) : bool :=
  match s with
  | EmptyString => true
  | String c _ => negb (GoStrings.inCutset cutset c)
  end.

(** All the headers of [-H] cut into key and value; [None] when one of
    them has no colon. *)
Fixpoint parseAll (hs : list string) : option (list (string * string)) :=
  match hs with
  | [] => Some []
  | h :: hs' =>
      match headerKeyValue h, parseAll hs' with
      | Some kv, Some kvs => Some (kv :: kvs)
      | _, _ => None
      end
  end.

Definition isHostHeader (kv : string * string) : bool :=
  EqualFoldHost (fst kv).

(** The first header without colon. *)
Fixpoint firstInvalid (hs : list string) : option string :=
  match hs with
  | [] => None
  | h :: hs' =>
      match headerKeyValue h with
      | None => Some h
      | Some _ => firstInvalid hs'
      end
  end.

(** The value of the last [Host] header, or [dflt] when there is none;
    and the other headers, in the order given. *)
Definition hostOf (kvs : list (string * string)) (dflt : string) : string :=
  last (map snd (filter isHostHeader kvs)) dflt.

Definition plainHeaders (kvs : list (string * string))
  : list (string * string) :=
  filter (fun kv => negb (isHostHeader kv)) kvs.

Definition isSpace (c : ascii) : bool := Ascii.eqb c " "%char.


(** *** [headerKeyValue] *)

Lemma cutAt_None h :
  GoStrings.cutAt ":"%char h = None <-> anyByte isColon h = false.
Proof.
  induction h as [|c h IH]; simpl; [tauto|].
  unfold isColon at 1. destruct (Ascii.eqb c ":"%char); simpl.
  - split; discriminate.
  - destruct (GoStrings.cutAt ":"%char h) as [[l r]|].
    + split; [discriminate|]. intros H. apply IH in H. discriminate.
    + rewrite <- IH. tauto.
Qed.

Lemma cutAt_first k rest :
  anyByte isColon k = false ->
  GoStrings.cutAt ":"%char (k ++ String ":" rest) = Some (k, String ":" rest).
Proof.
  induction k as [|c k IH]; simpl; intros H; [reflexivity|].
  apply Bool.orb_false_iff in H. destruct H as [Hc Hk].
  unfold isColon in Hc. rewrite Hc, (IH Hk). reflexivity.
Qed.

Lemma cutAt_Some h l r :
  GoStrings.cutAt ":"%char h = Some (l, r) ->
  h = l ++ r /\ anyByte isColon l = false /\
  exists r', r = String ":" r'.
Proof.
  revert l r. induction h as [|c h IH]; simpl; intros l r H; [discriminate|].
  destruct (Ascii.eqb_spec c ":"%char) as [->|Hc].
  - injection H as <- <-. repeat split. now exists h.
  - destruct (GoStrings.cutAt ":"%char h) as [[l' r']|]; [|discriminate].
    injection H as <- <-. destruct (IH l' r' eq_refl) as (-> & Hl & Hr).
    repeat split; [|exact Hr]. simpl. rewrite Hl.
    unfold isColon. now apply Ascii.eqb_neq in Hc; rewrite Hc.
Qed.

Lemma TrimRight_all sp cutset :
  allBytes (GoStrings.inCutset cutset) sp = true ->
  GoStrings.TrimRight sp cutset = "".
Proof.
  induction sp as [|c sp IH]; [reflexivity|]. simpl. intros H.
  apply Bool.andb_true_iff in H. destruct H as [Hc Hsp].
  now rewrite (IH Hsp), Hc.
Qed.

Lemma TrimRight_pad k sp cutset :
  (forall c, GoStrings.inCutset cutset c = true ->
             GoStrings.HasSuffix k (String c "") = false) ->
  allBytes (GoStrings.inCutset cutset) sp = true ->
  GoStrings.TrimRight (k ++ sp) cutset = k.
Proof.
  intros H Hsp. induction k as [|c k IH].
  - now apply TrimRight_all.
  - change (String c k ++ sp)%string with (String c (k ++ sp)).
    cbn [GoStrings.TrimRight]. rewrite IH.
    + destruct k; [|reflexivity].
      destruct (GoStrings.inCutset cutset c) eqn:E; [|reflexivity].
      specialize (H c E). cbn in H. now rewrite Ascii.eqb_refl in H.
    + intros c' Hc'. specialize (H c' Hc'). cbn [GoStrings.HasSuffix] in H.
      now apply Bool.orb_false_iff in H.
Qed.

Lemma inCutset_space c : GoStrings.inCutset " " c = isSpace c.
Proof. unfold GoStrings.inCutset, isSpace. simpl. apply Bool.orb_false_r. Qed.

Lemma string_app_assoc (a b c : string) :
  ((a ++ b) ++ c = a ++ b ++ c)%string.
Proof. induction a as [|x a IH]; simpl; congruence. Qed.

Lemma anyByte_app p a b : anyByte p (a ++ b) = anyByte p a || anyByte p b.
Proof.
  induction a as [|c a IH]; simpl; [reflexivity|].
  now rewrite IH, Bool.orb_assoc.
Qed.

Lemma spaces_no_colon sp :
  allBytes isSpace sp = true -> anyByte isColon sp = false.
Proof.
  induction sp as [|c sp IH]; simpl; [reflexivity|]. intros H.
  apply Bool.andb_true_iff in H. destruct H as [Hc Hsp].
  rewrite (IH Hsp). unfold isSpace in Hc. apply Ascii.eqb_eq in Hc.
  now subst c.
Qed.

Lemma TrimLeft_pad pad v cutset :
  allBytes (GoStrings.inCutset cutset) pad = true ->
  startsOutside cutset v = true ->
  GoStrings.TrimLeft (pad ++ v) cutset = v.
Proof.
  intros Hpad Hv. induction pad as [|c pad IH]; simpl in *.
  - destruct v as [|c v]; [reflexivity|]. simpl in *.
    now apply Bool.negb_true_iff in Hv; rewrite Hv.
  - apply Bool.andb_true_iff in Hpad. destruct Hpad as [Hc Hpad].
    rewrite Hc. now apply IH.
Qed.

Lemma TrimLeft_startsOutside s cutset :
  startsOutside cutset (GoStrings.TrimLeft s cutset) = true.
Proof.
  induction s as [|c s IH]; [reflexivity|]. simpl.
  destruct (GoStrings.inCutset cutset c) eqn:E; [exact IH|].
  simpl. now rewrite E.
Qed.

Lemma TrimRight_bytes p s cutset :
  anyByte p s = false -> anyByte p (GoStrings.TrimRight s cutset) = false.
Proof.
  induction s as [|c s IH]; [auto|]. simpl. intros H.
  apply Bool.orb_false_iff in H. destruct H as [Hc Hs].
  specialize (IH Hs).
  destruct (GoStrings.TrimRight s cutset) as [|d t].
  - destruct (GoStrings.inCutset cutset c); simpl; [reflexivity|].
    now rewrite Hc.
  - simpl in *. now rewrite Hc, IH.
Qed.

Lemma TrimRight_no_suffix s cutset c :
  GoStrings.inCutset cutset c = true ->
  GoStrings.HasSuffix (GoStrings.TrimRight s cutset) (String c "") = false.
Proof.
  intros Hc. induction s as [|d s IH]; [reflexivity|].
  cbn [GoStrings.TrimRight].
  destruct (GoStrings.TrimRight s cutset) as [|e t] eqn:E.
  - destruct (GoStrings.inCutset cutset d) eqn:Hd; [reflexivity|].
    cbn. destruct (Ascii.eqb_spec d c) as [->|]; [congruence|reflexivity].
  - change (GoStrings.HasSuffix (String d (String e t)) (String c ""))
      with ((String d (String e t) =? String c "")%string
            || GoStrings.HasSuffix (String e t) (String c "")).
    rewrite IH, Bool.orb_false_r. cbn.
    destruct (Ascii.eqb d c); reflexivity.
Qed.

(** *** The loop over the headers *)

Lemma last_cons {A} (x : A) l d : last (x :: l) d = last l x.
Proof.
  revert x d. induction l as [|y l IH]; intros x d; [reflexivity|].
  change (last (x :: y :: l) d) with (last (y :: l) d).
  now rewrite !IH.
Qed.

Lemma addHeaders_ok hs : forall kvs req,
  parseAll hs = Some kvs ->
  addHeaders hs req =
    inr (mkRequest (Method req) (reqURL req) (hostOf kvs (reqHost req))
                   (reqHeader req ++ plainHeaders kvs)).
Proof.
  induction hs as [|h hs IH]; intros kvs req H; simpl in H.
  - injection H as <-. simpl. rewrite app_nil_r. now destruct req.
  - simpl. destruct (headerKeyValue h) as [[k v]|]; [|discriminate].
    destruct (parseAll hs) as [kvs'|]; [|discriminate].
    injection H as <-. unfold hostOf, plainHeaders, isHostHeader.
    cbn [filter fst]. destruct (EqualFoldHost k) eqn:E.
    + rewrite (IH kvs' _ eq_refl). cbn [map snd negb Method reqURL reqHost
        reqHeader]. now rewrite last_cons.
    + rewrite (IH kvs' _ eq_refl). cbn [negb Method reqURL reqHost reqHeader].
      now rewrite <- app_assoc.
Qed.

Lemma addHeaders_good hs :
  Forall (fun x => anyByte isColon x = true) hs ->
  exists kvs, parseAll hs = Some kvs.
Proof.
  induction hs as [|h hs IH]; intros H; [now exists []|].
  inversion H as [|? ? Hh Hhs]; subst. simpl.
  destruct (IH Hhs) as [kvs ->].
  unfold headerKeyValue.
  destruct (GoStrings.cutAt ":"%char h) as [[l r]|] eqn:E.
  - eexists. reflexivity.
  - apply cutAt_None in E. congruence.
Qed.

Lemma addHeaders_bad pre h post : forall req,
  Forall (fun x => anyByte isColon x = true) pre ->
  anyByte isColon h = false ->
  addHeaders (pre ++ h :: post) req = inl (InvalidHeader h).
Proof.
  induction pre as [|x pre IH]; intros req Hpre Hh; simpl.
  - unfold headerKeyValue. apply cutAt_None in Hh. now rewrite Hh.
  - inversion Hpre as [|? ? Hx Hrest]; subst.
    unfold headerKeyValue.
    destruct (GoStrings.cutAt ":"%char x) as [[l r]|] eqn:E.
    + destruct (EqualFoldHost _); now apply IH.
    + apply cutAt_None in E. congruence.
Qed.

Lemma addHeaders_inl hs : forall req why,
  addHeaders hs req = inl why ->
  exists pre h post,
    why = InvalidHeader h /\ hs = (pre ++ h :: post)%list /\
    anyByte isColon h = false /\
    Forall (fun x => anyByte isColon x = true) pre.
Proof.
  induction hs as [|x hs IH]; intros req why H; simpl in H; [discriminate|].
  destruct (headerKeyValue x) as [[k v]|] eqn:E.
  - assert (Hx : anyByte isColon x = true).
    { destruct (anyByte isColon x) eqn:Hx; [reflexivity|].
      apply cutAt_None in Hx. unfold headerKeyValue in E.
      now rewrite Hx in E. }
    destruct (EqualFoldHost k);
      destruct (IH _ _ H) as (pre & h & post & -> & -> & Hh & Hpre);
      exists (x :: pre), h, post; repeat split; auto.
  - injection H as <-. exists [], x, hs. repeat split; auto.
    unfold headerKeyValue in E.
    destruct (GoStrings.cutAt ":"%char x) as [[l r]|] eqn:E'; [discriminate|].
    now apply cutAt_None.
Qed.


(** A header [key: value] comes back as written: whatever blanks stand
    before the first colon and whatever mix of blanks and colons follows
    it, [headerKeyValue] gives the key and the value, provided the key has
    no colon and no blank at its end and the value starts with neither a
    blank nor a colon. *)
Theorem header_round_trip k sp pad v :
  anyByte isColon k = false ->
  GoStrings.HasSuffix k " " = false ->
  allBytes isSpace sp = true ->
  allBytes (GoStrings.inCutset " :") pad = true ->
  startsOutside " :" v = true ->
  headerKeyValue (k ++ sp ++ ":" ++ pad ++ v) = Some (k, v).
Proof.
  intros Hk Hsuf Hsp Hpad Hv. unfold headerKeyValue.
  rewrite <- (string_app_assoc k sp).
  change (":" ++ pad ++ v)%string with (String ":" (pad ++ v)).
  rewrite cutAt_first
    by (rewrite anyByte_app, Hk; now apply spaces_no_colon).
  rewrite TrimRight_pad.
  - change (String ":" (pad ++ v)) with (String ":" pad ++ v)%string.
    rewrite TrimLeft_pad; [reflexivity| |exact Hv].
    simpl. exact Hpad.
  - intros c Hc. rewrite inCutset_space in Hc. unfold isSpace in Hc.
    apply Ascii.eqb_eq in Hc. now subst c.
  - clear -Hsp. induction sp as [|c sp IH]; [reflexivity|]. simpl in *.
    apply Bool.andb_true_iff in Hsp. destruct Hsp as [Hc Hsp].
    now rewrite inCutset_space, Hc, IH.
Qed.

(** The round trip on [Accept : text/html], and on an IPv6 [Host]: the
    colons that open the address [::1] go with the separator. *)
Lemma header_round_trip_witness :
  headerKeyValue "Accept : text/html" = Some ("Accept", "text/html") /\
  headerKeyValue "Host: ::1" = Some ("Host", "1").
Proof.
  split.
  - exact (header_round_trip "Accept" " " " " "text/html"
             eq_refl eq_refl eq_refl eq_refl eq_refl).
  - exact (header_round_trip "Host" "" " ::" "1"
             eq_refl eq_refl eq_refl eq_refl eq_refl).
Defined.

(** What [headerKeyValue] returns is trimmed: the header is the key,
    blanks, a colon, blanks and colons, and the value; the key has no
    colon and does not end in a blank, and the value starts with neither
    a blank nor a colon.  The call is fatal exactly on a header without
    colon. *)
Theorem header_normal_form h :
  (headerKeyValue h = None <-> anyByte isColon h = false) /\
  (forall k v, headerKeyValue h = Some (k, v) ->
     anyByte isColon k = false /\
     GoStrings.HasSuffix k " " = false /\
     startsOutside " :" v = true /\
     exists l r, h = (l ++ String ":" r)%string /\
                 k = GoStrings.TrimRight l " " /\
                 v = GoStrings.TrimLeft r " :").
Proof.
  split.
  - unfold headerKeyValue. rewrite <- cutAt_None.
    destruct (GoStrings.cutAt ":"%char h) as [[l r]|];
      split; congruence.
  - intros k v H. unfold headerKeyValue in H.
    destruct (GoStrings.cutAt ":"%char h) as [[l r]|] eqn:E; [|discriminate].
    injection H as <- <-.
    destruct (cutAt_Some h l r E) as (-> & Hl & r' & ->).
    split; [now apply TrimRight_bytes|].
    split; [now apply TrimRight_no_suffix|].
    split; [apply TrimLeft_startsOutside|].
    exists l, r'. repeat split. 
Qed.

Lemma newRequest_parsed fl w url req :
  newRequest fl w url = inr req ->
  exists kvs,
    parseAll (httpHeaders fl) = Some kvs /\
    req = mkRequest (httpMethod fl) url (hostOf kvs (Host url))
                    (plainHeaders kvs).
Proof.
  unfold newRequest. intros H.
  destruct (createBody w (postBody fl)); [discriminate|].
  destruct (negb (NewRequestOk w (httpMethod fl) url)); [discriminate|].
  destruct (parseAll (httpHeaders fl)) as [kvs|] eqn:E.
  - rewrite (addHeaders_ok _ kvs _ E) in H. injection H as <-.
    now exists kvs.
  - exfalso.
    assert (Hbad : ~ Forall (fun x => anyByte isColon x = true)
                            (httpHeaders fl)).
    { intros HF. destruct (addHeaders_good _ HF) as [kvs Hk].
      congruence. }
    apply Hbad. clear Hbad E.
    revert H. generalize (mkRequest (httpMethod fl) url (Host url) []).
    induction (httpHeaders fl) as [|x hs IH]; intros r H; [constructor|].
    simpl in H. destruct (headerKeyValue x) as [[k v]|] eqn:E; [|discriminate].
    constructor.
    + destruct (anyByte isColon x) eqn:Hx; [reflexivity|].
      apply cutAt_None in Hx. unfold headerKeyValue in E.
      now rewrite Hx in E.
    + destruct (EqualFoldHost k); eapply IH; eassumption.
Qed.



(** [newRequest] ends the run over a header exactly when the body and
    the request itself were in order and some header has no colon; the
    header it names is the first of these. *)
Theorem newRequest_invalid_header fl w url h :
  newRequest fl w url = inl (InvalidHeader h) <->
  createBody w (postBody fl) = None /\
  NewRequestOk w (httpMethod fl) url = true /\
  exists pre post,
    httpHeaders fl = (pre ++ h :: post)%list /\
    anyByte isColon h = false /\
    Forall (fun x => anyByte isColon x = true) pre.
Proof.
  unfold newRequest. split.
  - intros H.
    destruct (createBody w (postBody fl)) as [why|] eqn:Eb.
    + unfold createBody in Eb.
      destruct (GoStrings.HasPrefix (postBody fl) "@"); [|discriminate].
      destruct (osOpen w _); [discriminate|]. congruence.
    + destruct (NewRequestOk w (httpMethod fl) url); [|discriminate].
      simpl in H. destruct (addHeaders_inl _ _ _ H)
        as (pre & h' & post & Hw & Hhs & Hh & Hpre).
      injection Hw as ->. repeat split; auto. now exists pre, post.
  - intros (-> & -> & pre & post & -> & Hh & Hpre). simpl.
    now apply addHeaders_bad.
Qed.

End RequestFacts.

(** ** More on [printTemplate]: the loop ends, and the width is kept *)

Module TemplateFacts.

Import Template.

Definition isPercent (c : ascii) : bool := Ascii.eqb c "%"%char.

(** The placeholders still to replace: the [%] bytes of the buffer. *)
Definition percents (b : bytes) : nat := List.length (filter isPercent b).

(** A template of the program's kind, and one whose value does not fit
    the span before it. *)
Definition narrowTemplate : string := "total:%<Total|%>DNS".

Lemma percents_app (a b : bytes) :
  percents (a ++ b)%list = (percents a + percents b)%nat.
Proof. unfold percents. now rewrite filter_app, length_app. Qed.

Lemma percents_split n b :
  percents b = (percents (firstn n b) + percents (skipn n b))%nat.
Proof. now rewrite <- percents_app, firstn_skipn. Qed.

Lemma percents_repeat n : percents (repeat " "%char n) = 0%nat.
Proof. induction n; [reflexivity | exact IHn]. Qed.

Lemma percents_digits d :
  percents (list_ascii_of_string (DecimalString.NilEmpty.string_of_uint d))
  = 0%nat.
Proof. induction d; simpl; auto. Qed.

Lemma percents_string_app a b :
  percents (list_ascii_of_string (a ++ b)) =
  (percents (list_ascii_of_string a) + percents (list_ascii_of_string b))%nat.
Proof.
  induction a as [|c a IH]; [reflexivity|].
  change (list_ascii_of_string (String c a ++ b))
    with (c :: list_ascii_of_string (a ++ b)).
  change (list_ascii_of_string (String c a))
    with (c :: list_ascii_of_string a).
  unfold percents in *. cbn [filter].
  destruct (isPercent c); cbn [List.length]; rewrite IH; reflexivity.
Qed.

Lemma percents_value noColor val :
  percents (CyanString noColor (Itoa val ++ "ms")) = 0%nat.
Proof.
  assert (H : percents (list_ascii_of_string (Itoa val ++ "ms")) = 0%nat).
  { rewrite percents_string_app. unfold Itoa.
    destruct (Z.to_int val) as [d|d]; cbn [DecimalString.NilEmpty.string_of_int].
    - now rewrite percents_digits.
    - change (list_ascii_of_string
                (String "-" (DecimalString.NilEmpty.string_of_uint d)))
        with ("-"%char ::
              list_ascii_of_string (DecimalString.NilEmpty.string_of_uint d)).
      change (percents ("-"%char :: ?l)) with (percents l).
      now rewrite percents_digits. }
  unfold CyanString. destruct noColor; [exact H|].
  change (ESC :: list_ascii_of_string "[36m")
    with ([ESC; "["; "3"; "6"; "m"]%char).
  rewrite !percents_app, H. reflexivity.
Qed.

Lemma IndexByte_Some b : forall idx,
  IndexByte b "%"%char = Some idx ->
  nth_error b idx = Some "%"%char /\ percents (firstn idx b) = 0%nat.
Proof.
  induction b as [|x b IH]; intros idx H; simpl in H; [discriminate|].
  destruct (Ascii.eqb_spec x "%"%char) as [->|Hx].
  - injection H as <-. now split.
  - destruct (IndexByte b "%"%char) as [i|]; [|discriminate].
    injection H as <-. destruct (IH i eq_refl) as [Hn Hp].
    split; [exact Hn|]. cbn [firstn]. unfold percents in *. cbn [filter].
    unfold isPercent at 1. apply Ascii.eqb_neq in Hx. now rewrite Hx.
Qed.

Lemma IndexByte_None b :
  IndexByte b "%"%char = None -> percents b = 0%nat.
Proof.
  induction b as [|x b IH]; simpl; [reflexivity|].
  unfold percents. cbn [filter]. unfold isPercent at 1.
  destruct (Ascii.eqb x "%"%char); [discriminate|].
  destruct (IndexByte b "%"%char); [discriminate|]. intros _. now apply IH.
Qed.

Lemma percents_at b idx :
  nth_error b idx = Some "%"%char ->
  forall e, (idx < e)%nat -> (percents (skipn e b) < percents b)%nat.
Proof.
  intros Hn e He.
  rewrite <- (firstn_skipn_middle idx b Hn) at 2.
  rewrite percents_app.
  change (percents ("%"%char :: skipn (S idx) b))
    with (S (percents (skipn (S idx) b))).
  replace e with ((e - S idx) + S idx)%nat by lia.
  rewrite <- skipn_skipn.
  pose proof (percents_split (e - S idx) (skipn (S idx) b)). lia.
Qed.

(** One turn of the loop takes a placeholder away and brings none. *)
Lemma substitute_fewer noColor vars b idx b' :
  IndexByte b "%"%char = Some idx ->
  substitute noColor vars b idx = inl b' ->
  (percents b' < percents b)%nat.
Proof.
  intros Hidx. destruct (IndexByte_Some b idx Hidx) as [Hn Hpre].
  unfold substitute.
  destruct (nth_error b (idx + 1)) as [dir|] eqn:Hdir; [|discriminate].
  assert (Hlen : (idx + 1 < List.length b)%nat)
    by (apply nth_error_Some; congruence).
  pose proof (scanName_bounds (skipn (idx + 2) b) (idx + 2)) as Hb.
  rewrite length_skipn in Hb.
  set (e := scanName (skipn (idx + 2) b) (idx + 2)) in *.
  destruct (FieldByName vars _) as [val|]; [|discriminate].
  pose proof (percents_value noColor val) as Hv.
  pose proof (percents_at b idx Hn e ltac:(lia)) as Hlt.
  set (v := CyanString noColor (Itoa val ++ "ms")) in *.
  set (vlen := String.length (Itoa val ++ "ms")).
  set (b1 := (firstn idx b ++ repeat " "%char (e - idx) ++ skipn e b)%list).
  assert (Hb1 : percents b1 = percents (skipn e b)).
  { unfold b1. rewrite !percents_app, Hpre, percents_repeat. reflexivity. }
  assert (Hl1 : List.length (firstn idx b) = idx)
    by (rewrite length_firstn; lia).
  assert (Hhead : forall k, (k <= e)%nat -> percents (firstn k b1) = 0%nat).
  { intros k Hk. unfold b1. rewrite app_assoc, firstn_app.
    rewrite length_app, Hl1, repeat_length.
    replace (k - (idx + (e - idx)))%nat with 0%nat by lia.
    rewrite firstn_O, app_nil_r.
    pose proof (percents_split k
                  (firstn idx b ++ repeat " "%char (e - idx))%list) as Hs.
    rewrite percents_app, Hpre, percents_repeat in Hs. lia. }
  assert (Htail : forall k, (percents (skipn k b1) <= percents b1)%nat)
    by (intros k; pose proof (percents_split k b1); lia).
  destruct (Ascii.eqb dir ">"%char).
  - destruct (Nat.leb_spec vlen e) as [Hfit|]; [|discriminate].
    intros H. injection H as <-. rewrite !percents_app, Hv.
    rewrite (Hhead (e - vlen)%nat) by lia.
    specialize (Htail e). lia.
  - destruct (Ascii.eqb dir "<"%char); [|discriminate].
    destruct (idx + vlen <=? List.length b1)%nat; [|discriminate].
    intros H. injection H as <-. rewrite !percents_app, Hv.
    rewrite (Hhead idx) by lia.
    specialize (Htail (idx + vlen)%nat). lia.
Qed.

Lemma substituteAll_ends noColor vars : forall fuel b,
  (percents b <= fuel)%nat -> substituteAll fuel noColor vars b <> OutOfFuel.
Proof.
  induction fuel as [|fuel IH]; intros b Hb; simpl.
  - destruct (IndexByte b "%"%char) as [idx|] eqn:E; [|discriminate].
    destruct (IndexByte_Some b idx E) as [Hn _].
    pose proof (percents_at b idx Hn (S idx) ltac:(lia)). lia.
  - destruct (IndexByte b "%"%char) as [idx|] eqn:E; [|discriminate].
    destruct (substitute noColor vars b idx) as [b'|msg] eqn:Es; [|discriminate].
    apply IH. pose proof (substitute_fewer _ _ _ _ _ E Es). lia.
Qed.

Lemma percents_le_length b : (percents b <= List.length b)%nat.
Proof. unfold percents. apply filter_length_le. Qed.

(** With colour off, one turn of the loop keeps the length of the
    buffer. *)
Lemma substitute_length vars b idx b' :
  substitute true vars b idx = inl b' -> List.length b' = List.length b.
Proof.
  unfold substitute.
  destruct (nth_error b (idx + 1)) as [dir|] eqn:Hdir; [|discriminate].
  assert (Hlen : (idx + 1 < List.length b)%nat)
    by (apply nth_error_Some; congruence).
  pose proof (scanName_bounds (skipn (idx + 2) b) (idx + 2)) as Hb.
  rewrite length_skipn in Hb.
  set (e := scanName (skipn (idx + 2) b) (idx + 2)) in *.
  destruct (FieldByName vars _) as [val|]; [|discriminate].
  unfold CyanString.
  set (v := (Itoa val ++ "ms")%string).
  set (b1 := (firstn idx b ++ repeat " "%char (e - idx) ++ skipn e b)%list).
  assert (Hb1 : List.length b1 = List.length b).
  { unfold b1. rewrite !length_app, length_firstn, repeat_length, length_skipn.
    lia. }
  destruct (Ascii.eqb dir ">"%char).
  - destruct (Nat.leb_spec (String.length v) e) as [Hfit|]; [|discriminate].
    intros H. injection H as <-.
    rewrite !length_app, length_firstn, length_skipn,
      length_list_ascii_of_string, Hb1. lia.
  - destruct (Ascii.eqb dir "<"%char); [|discriminate].
    destruct (Nat.leb_spec (idx + String.length v) (List.length b1))
      as [Hfit|]; [|discriminate].
    intros H. injection H as <-.
    rewrite !length_app, length_firstn, length_skipn,
      length_list_ascii_of_string, Hb1. lia.
Qed.

Lemma substituteAll_printed noColor vars : forall fuel b s,
  substituteAll fuel noColor vars b = Printed s ->
  percents (list_ascii_of_string s) = 0%nat /\
  (noColor = true -> String.length s = List.length b).
Proof.
  induction fuel as [|fuel IH]; intros b s; simpl;
    destruct (IndexByte b "%"%char) as [idx|] eqn:E; try discriminate.
  - intros H. injection H as <-.
    rewrite list_ascii_of_string_of_list_ascii.
    split; [now apply IndexByte_None|]. intros _.
    now rewrite <- length_list_ascii_of_string,
      list_ascii_of_string_of_list_ascii.
  - destruct (substitute noColor vars b idx) as [b'|msg] eqn:Es;
      [|discriminate].
    intros H. destruct (IH b' s H) as [Hp Hl]. split; [exact Hp|].
    intros ->. rewrite (Hl eq_refl). now apply (substitute_length vars b idx).
  - intros H. injection H as <-.
    rewrite list_ascii_of_string_of_list_ascii.
    split; [now apply IndexByte_None|]. intros _.
    now rewrite <- length_list_ascii_of_string,
      list_ascii_of_string_of_list_ascii.
Qed.

(** The loop of [printTemplate] comes to an end on every template and
    every timing, with colour or without: each turn replaces one [%] by
    text that holds none, so the run prints or panics. *)
Theorem printTemplate_terminates noColor tmpl vars :
  (exists s, printTemplate noColor tmpl vars = Printed s) \/
  (exists msg, printTemplate noColor tmpl vars = Panic msg).
Proof.
  pose proof (substituteAll_ends noColor vars (String.length tmpl)
                (list_ascii_of_string tmpl)) as H.
  rewrite <- length_list_ascii_of_string in H.
  specialize (H (percents_le_length _)).
  unfold printTemplate. rewrite <- length_list_ascii_of_string.
  destruct (substituteAll _ noColor vars _) as [s|msg|];
    [left; now exists s | right; now exists msg | contradiction].
Qed.

(** What [printTemplate] prints holds no [%] any more, and with colour
    off it is exactly as long as the template: a value never moves the
    text after it, whatever its width. *)
Theorem printTemplate_keeps_width noColor tmpl vars s :
  printTemplate noColor tmpl vars = Printed s ->
  IndexByte (list_ascii_of_string s) "%"%char = None /\
  (noColor = true -> String.length s = String.length tmpl).
Proof.
  unfold printTemplate. intros H.
  destruct (substituteAll_printed _ _ _ _ _ H) as [Hp Hl]. split.
  - destruct (IndexByte (list_ascii_of_string s) "%"%char) as [i|] eqn:E;
      [|reflexivity].
    destruct (IndexByte_Some _ _ E) as [Hn _].
    pose proof (percents_at _ _ Hn (S i) ltac:(lia)). lia.
  - intros Hc. rewrite (Hl Hc). apply length_list_ascii_of_string.
Qed.

(** On [narrowTemplate], a value of seven digits for [DNS] is wider than
    its span and takes the place of the blanks and the bar before it;
    the output still has the template's nineteen bytes. *)
Lemma printTemplate_keeps_width_witness :
  printTemplate true narrowTemplate (mkTiming 1234567 0 0 0 0 0 0 0 0 42)
    = Printed "total:42ms1234567ms" /\
  String.length "total:42ms1234567ms" = String.length narrowTemplate.
Proof.
  assert (E : printTemplate true narrowTemplate
                (mkTiming 1234567 0 0 0 0 0 0 0 0 42)
              = Printed "total:42ms1234567ms") by (vm_compute; reflexivity).
  split; [exact E|].
  exact (proj2 (printTemplate_keeps_width _ _ _ _ E) eq_refl).
Defined.

End TemplateFacts.

(** ** The order in which [visit] prints the response headers *)

Module HeaderOrder.

Import Headers.

(** [a] is printed before [b]. *)
Definition before (a b : string) : Prop := lessNames a b = true.

(** What [sort.Sort] leaves: no element is less than the one before it. *)
Definition inOrder (a b : string) : Prop := lessNames b a = false.

(** [sort.Sort(headers(names))] by its contract: [out] holds the names
    that [range resp.Header] gave, in whatever order the map gave them,
    rearranged so that [Less] never puts an element before its
    predecessor. *)
Definition sortedNames (names out : headers) : Prop :=
  Permutation names out /\ Sorted inOrder out.

(** The same by insertion, with [lessNames] as the only test. *)
Fixpoint insertName (a : string) (l : headers) : headers :=
  match l with
  | [] => [a]
  | b :: l' => if lessNames a b then a :: l else b :: insertName a l'
  end.

Definition sortNames (names : headers) : headers :=
  fold_right insertName [] names.

(** The header names of an answer, as the map may give them. *)
Definition sampleNames : headers :=
  ["Connection"; "Date"; "Server"; "Content-Type"; "Age"; "Upgrade"].

Definition sampleSorted : headers :=
  ["Server"; "Age"; "Content-Type"; "Date"; "Connection"; "Upgrade"].

Lemma insertName_perm a l : Permutation (a :: l) (insertName a l).
Proof.
  induction l as [|b l IH]; simpl; [reflexivity|].
  destruct (lessNames a b); [reflexivity|].
  rewrite perm_swap. now constructor.
Qed.

Lemma sortNames_perm names : Permutation names (sortNames names).
Proof.
  induction names as [|a l IH]; simpl; [constructor|].
  rewrite <- insertName_perm. now constructor.
Qed.

Lemma insertName_sorted a l :
  ~ In a l -> StronglySorted before l -> StronglySorted before (insertName a l).
Proof.
  intros Hin Hs. induction Hs as [|b l Hs IH Hb]; simpl.
  - repeat constructor.
  - destruct (lessNames a b) eqn:E.
    + constructor; [now constructor|].
      constructor; [exact E|].
      eapply Forall_impl; [|exact Hb]. intros x Hx.
      exact (lessNames_trans a b x E Hx).
    + assert (Hne : a <> b) by (intros ->; apply Hin; now left).
      assert (Hba : before b a).
      { destruct (lessNames_connex a b Hne) as [H|H]; [congruence|exact H]. }
      constructor.
      * apply IH. intros H. apply Hin. now right.
      * apply Forall_forall. intros x Hx.
        apply (Permutation_in _ (Permutation_sym (insertName_perm a l))) in Hx.
        destruct Hx as [<-|Hx]; [exact Hba|].
        rewrite Forall_forall in Hb. now apply Hb.
Qed.

Lemma sortNames_sorted names :
  NoDup names -> StronglySorted before (sortNames names).
Proof.
  induction 1 as [|a l Hin Hnd IH]; simpl; [constructor|].
  apply insertName_sorted; [|exact IH].
  intros H. apply Hin.
  exact (Permutation_in _ (Permutation_sym (sortNames_perm l)) H).
Qed.

Lemma inOrder_before l :
  NoDup l -> Sorted inOrder l -> StronglySorted before l.
Proof.
  intros Hnd Hs. apply Sorted_StronglySorted.
  - intros a b c. apply lessNames_trans.
  - induction Hs as [|a l Hs IH Hd]; [constructor|].
    inversion Hnd as [|? ? Hin Hnd']; subst.
    constructor; [now apply IH|].
    destruct Hd as [|b l Hab]; constructor.
    assert (Hne : a <> b) by (intros ->; apply Hin; now left).
    destruct (lessNames_connex a b Hne) as [H|H]; [exact H|].
    unfold inOrder in Hab. congruence.
Qed.

Lemma sorted_unique : forall l1 l2,
  StronglySorted before l1 -> StronglySorted before l2 ->
  Permutation l1 l2 -> l1 = l2.
Proof.
  induction l1 as [|a l1 IH]; intros l2 H1 H2 Hp.
  - now apply Permutation_nil in Hp.
  - destruct l2 as [|b l2];
      [apply Permutation_sym, Permutation_nil in Hp; discriminate|].
    apply StronglySorted_inv in H1, H2.
    destruct H1 as [H1 Ha], H2 as [H2 Hb].
    rewrite Forall_forall in Ha, Hb.
    assert (E : a = b).
    { assert (Hina : In a (b :: l2))
        by (apply (Permutation_in _ Hp); now left).
      assert (Hinb : In b (a :: l1))
        by (apply (Permutation_in _ (Permutation_sym Hp)); now left).
      destruct Hina as [Hba|Hina]; [congruence|].
      destruct Hinb as [Hab|Hinb]; [exact Hab|].
      apply lessNames_antisym; [now apply Ha | now apply Hb]. }
    subst b. f_equal. apply IH; auto.
    exact (Permutation_cons_inv Hp).
Qed.

(** The headers of an answer are printed in one order, whatever order
    the map of headers gives its keys in and however [sort.Sort] goes
    about it: the keys, which are distinct, sorted by [Less] are the list
    that insertion by [Less] builds.  When [Server] is among them it is
    printed first. *)
Theorem header_display_order names out :
  NoDup names ->
  sortedNames names out ->
  out = sortNames names /\
  (In "Server" names -> hd_error out = Some "Server").
Proof.
  intros Hnd [Hp Hs].
  assert (Hout : StronglySorted before out).
  { apply inOrder_before; [|exact Hs].
    exact (Permutation_NoDup Hp Hnd). }
  split.
  - apply sorted_unique; [exact Hout | now apply sortNames_sorted |].
    rewrite <- Hp. apply sortNames_perm.
  - intros Hin. apply (Permutation_in _ Hp) in Hin.
    destruct out as [|x out]; [contradiction|]. simpl.
    destruct Hin as [->|Hin]; [reflexivity|].
    apply StronglySorted_inv in Hout. destruct Hout as [_ Hx].
    rewrite Forall_forall in Hx. specialize (Hx _ Hin).
    destruct (string_dec x "Server") as [->|Hne]; [reflexivity|].
    unfold before in Hx. rewrite (lessNames_not_Server _ _ Hne) in Hx.
    discriminate Hx.
Qed.

(** The names of [sampleNames]: [Server] first, the end-to-end names in
    the order of their bytes, then the hop-by-hop ones. *)
Lemma header_display_order_witness :
  sortedNames sampleNames sampleSorted /\
  sampleSorted = sortNames sampleNames /\
  hd_error sampleSorted = Some "Server".
Proof.
  assert (Hnd : NoDup sampleNames).
  { unfold sampleNames.
    repeat (constructor; [simpl; intuition discriminate|]). constructor. }
  assert (Hs : sortedNames sampleNames sampleSorted).
  { split.
    - unfold sampleNames, sampleSorted.
      apply (Permutation_trans (l' :=
               ["Server"; "Connection"; "Date"; "Content-Type"; "Age";
                "Upgrade"])).
      { apply Permutation_sym.
        exact (Permutation_middle ["Connection"; "Date"]
                 ["Content-Type"; "Age"; "Upgrade"] "Server"). }
      constructor.
      apply (Permutation_trans (l' :=
               ["Age"; "Connection"; "Date"; "Content-Type"; "Upgrade"])).
      { apply Permutation_sym.
        exact (Permutation_middle ["Connection"; "Date"; "Content-Type"]
                 ["Upgrade"] "Age"). }
      constructor.
      apply (Permutation_trans (l' :=
               ["Content-Type"; "Connection"; "Date"; "Upgrade"])).
      { apply Permutation_sym.
        exact (Permutation_middle ["Connection"; "Date"]
                 ["Upgrade"] "Content-Type"). }
      constructor.
      apply perm_swap.
    - repeat (constructor; try reflexivity). }
  destruct (header_display_order _ _ Hnd Hs) as [He Hh].
  split; [exact Hs|]. split; [exact He|].
  apply Hh. simpl. auto.
Defined.

End HeaderOrder.

(** ** More on [readResponseBody]: the name of the file under [-O] *)

Module BodyFacts.

Import Body.

Definition isSlash (c : ascii) : bool := Ascii.eqb c "/"%char.

(** The name leads out of, or below, the working directory. *)
Definition hasSlash (s : string) : bool :=
  existsb isSlash (list_ascii_of_string s).

(** The flag [-o] given another value. *)
Definition set_outputFile (x : string) (fl : Flags) : Flags :=
  {| httpMethod := httpMethod fl; postBody := postBody fl;
     followRedirects := followRedirects fl; insecure := insecure fl;
     httpHeaders := httpHeaders fl; saveOutput := saveOutput fl;
     outputFile := x; clientCertFile := clientCertFile fl;
     cacert := cacert fl; jsonOutput := jsonOutput fl;
     numRequests := numRequests fl; requestDelay := requestDelay fl |}.

(** An answer that names its file, with a path in the name, and a world
    whose [mime.ParseMediaType] reads that header. *)
Definition quote : string := String "034"%char "".

Definition attachmentHeader : string :=
  "attachment; filename=" ++ quote ++ "../report.pdf" ++ quote.

Definition attachment200 : Response :=
  mkResponse 200 attachmentHeader ErrNoLocation false.

Definition attachmentWorld : World :=
  {| ParseMediaType := fun hdr =>
       if (hdr =? attachmentHeader)%string
       then Some ("attachment", [("filename", "../report.pdf")])
       else None;
     osCreate := fun _ => true;
     osOpen := fun _ => true;
     osWriteErr := fun _ => false;
     NoColor := true;
     ReadFile := fun _ => None;
     CertsFromPEM := fun _ => [];
     KeyPairFromPEM := fun _ => None;
     SplitHostPort := fun _ => None;
     ConfigureHTTP2 := true;
     urlParse := fun _ => None;
     NewRequestOk := fun _ _ => true;
     clientDo := fun _ _ => None |}.

(** [GET /files/data.csv?dl=1] *)
Definition getFile : Request :=
  mkRequest "GET" (mkURL "https" "example.com" "/files/data.csv" "dl=1")
            "example.com" [].

Lemma existsb_rev_eq {A} (f : A -> bool) l : existsb f (rev l) = existsb f l.
Proof.
  induction l as [|x l IH]; [reflexivity|]. simpl.
  rewrite existsb_app, IH. simpl. rewrite Bool.orb_false_r.
  apply Bool.orb_comm.
Qed.

Lemma lastElement_no_slash l : existsb isSlash (lastElement l) = false.
Proof.
  induction l as [|c l IH]; [reflexivity|]. simpl.
  destruct (Ascii.eqb c "/"%char) eqn:E; [reflexivity|].
  simpl. unfold isSlash at 1. now rewrite E.
Qed.

(** [path.Base] gives [/] or a name without slash. *)
Lemma pathBase_cases p : pathBase p = "/" \/ hasSlash (pathBase p) = false.
Proof.
  unfold pathBase. destruct (p =? "")%string; [now right|].
  set (q := dropTrailingSlashes (rev (list_ascii_of_string p))).
  destruct (rev (lastElement q)) as [|c l] eqn:E; [now left|]. right.
  unfold hasSlash. rewrite list_ascii_of_string_of_list_ascii, <- E.
  rewrite existsb_rev_eq. apply lastElement_no_slash.
Qed.

Lemma readResponseBody_created fl w req resp f :
  In (Create f) (fst (readResponseBody fl w req resp)) ->
  saving fl = true /\ f = outputFilename fl w req resp /\
  (saveOutput fl && (f =? "/")%string) = false.
Proof.
  unfold readResponseBody.
  destruct (isRedirect resp || (Method req =? "HEAD")%string);
    [simpl; contradiction|].
  destruct (saving fl); [|simpl; intuition discriminate].
  set (fn := outputFilename fl w req resp).
  destruct (saveOutput fl && (fn =? "/")%string) eqn:E;
    [simpl; contradiction|].
  destruct (negb (osCreate w fn)); [simpl; contradiction|].
  destruct (BodyErr resp || osWriteErr w fn); simpl; intros H;
    repeat (destruct H as [H|H];
            [try discriminate; injection H as <-; auto|]);
    contradiction.
Qed.

(** Under [-O] the name given with [-o] plays no part, and the file
    that is created has the name the answer's [Content-Disposition] gives,
    taken as it is, or else the last element of the request URI, which
    holds no slash; a file named [/] is never created. *)
Theorem saved_under_remote_name fl w req resp f :
  saveOutput fl = true ->
  (forall x, readResponseBody (set_outputFile x fl) w req resp
             = readResponseBody fl w req resp) /\
  (In (Create f) (fst (readResponseBody fl w req resp)) ->
   f <> "/" /\
   ((f = getFilenameFromHeaders w resp /\ f <> "") \/
    (getFilenameFromHeaders w resp = "" /\
     f = pathBase (RequestURI (reqURL req)) /\ hasSlash f = false))).
Proof.
  intros HO. split.
  - intros x. unfold readResponseBody, saving, outputFilename.
    cbn [saveOutput outputFile set_outputFile]. now rewrite HO.
  - intros Hin. apply readResponseBody_created in Hin.
    destruct Hin as (_ & Hf & Hroot). rewrite HO in Hroot. simpl in Hroot.
    apply String.eqb_neq in Hroot. split; [exact Hroot|].
    unfold outputFilename in Hf. rewrite HO in Hf.
    destruct (String.eqb_spec (getFilenameFromHeaders w resp) "") as [E|E].
    + right. split; [exact E|]. split; [exact Hf|].
      destruct (pathBase_cases (RequestURI (reqURL req))) as [H|H];
        rewrite <- Hf in H; [contradiction | exact H].
    + left. subst f. now split.
Qed.

(** Under [-O] and [-o out.bin], an answer without [Content-Disposition]
    to [GET /files/data.csv?dl=1] is saved as [data.csv?dl=1]; one whose
    header names [../report.pdf] is saved under that path. *)
Lemma saved_under_remote_name_witness :
  fst (readResponseBody (set_outputFile "out.bin" flagsO) quietWorld
         getFile ok200)
    = [Create "data.csv?dl=1"; Copy (Some "data.csv?dl=1");
       Close "data.csv?dl=1"] /\
  hasSlash "data.csv?dl=1" = false /\
  fst (readResponseBody flagsO attachmentWorld getFile attachment200)
    = [Create "../report.pdf"; Copy (Some "../report.pdf");
       Close "../report.pdf"] /\
  hasSlash "../report.pdf" = true.
Proof.
  destruct (saved_under_remote_name flagsO quietWorld getFile ok200
              "data.csv?dl=1" eq_refl) as [Ho Hn].
  split; [rewrite Ho; vm_compute; reflexivity|].
  split.
  - destruct (Hn ltac:(vm_compute; auto)) as [_ [[H _]|(_ & _ & H)]];
      [vm_compute in H; discriminate | exact H].
  - split; vm_compute; reflexivity.
Defined.

End BodyFacts.

(** ** More on [parseURL]: the scheme of the URL it returns *)

Module ParseURLFacts.

Import ParseURL.

(** A parser for targets with a scheme, [scheme://host]: the scheme is
    what stands before [://], the host what follows; of [//host] it makes
    a URL without scheme. *)
Definition parseSchemeHost (s : string) : option URL :=
  match GoStrings.cutAt ":"%char s with
  | Some (sch, String ":" (String "/" (String "/" host))) =>
      Some (mkURL sch host "" "")
  | _ => parseHostOnly s
  end.

Definition schemeWorld : World :=
  {| ParseMediaType := fun _ => None;
     osCreate := fun _ => true;
     osOpen := fun _ => true;
     osWriteErr := fun _ => false;
     NoColor := true;
     ReadFile := fun _ => None;
     CertsFromPEM := fun _ => [];
     KeyPairFromPEM := fun _ => None;
     SplitHostPort := fun _ => None;
     ConfigureHTTP2 := true;
     urlParse := parseSchemeHost;
     NewRequestOk := fun _ _ => true;
     clientDo := fun _ _ => None |}.

Lemma parseURL_Some_scheme w uri u :
  parseURL w uri = Some u -> Scheme u <> "".
Proof.
  unfold parseURL. destruct (urlParse w (prepare uri)) as [u0|]; [|discriminate].
  destruct (String.eqb_spec (Scheme u0) "") as [E|E].
  - intros H. injection H as <-. cbn.
    destruct (negb (GoStrings.HasSuffix (Host u0) ":80")); discriminate.
  - intros H. injection H as <-. exact E.
Qed.

Lemma prepare_HasPrefix uri :
  GoStrings.Contains (prepare uri) "://" = true \/
  GoStrings.HasPrefix (prepare uri) "//" = true.
Proof.
  unfold prepare.
  destruct (GoStrings.Contains uri "://") eqn:Ec; [now left|].
  destruct (GoStrings.HasPrefix uri "//") eqn:Ep; [now right|].
  right. unfold GoStrings.HasPrefix. destruct uri; vm_compute; reflexivity.
Qed.

(** [parseURL] never returns a URL without scheme.  A scheme that the
    parser found is kept, whatever the port: the URL comes back as
    parsed.  Host, path and query are always the parser's.  And the text
    the parser is given needs no second preparation. *)
Theorem parseURL_scheme_never_empty w uri u :
  parseURL w uri = Some u ->
  Scheme u <> "" /\
  prepare (prepare uri) = prepare uri /\
  exists u0,
    urlParse w (prepare uri) = Some u0 /\
    Host u = Host u0 /\ Path u = Path u0 /\ RawQuery u = RawQuery u0 /\
    (Scheme u0 <> "" -> u = u0) /\
    (Scheme u0 = "" -> Scheme u = "http" \/ Scheme u = "https").
Proof.
  intros H. split; [exact (parseURL_Some_scheme w uri u H)|]. split.
  { unfold prepare at 1.
    destruct (prepare_HasPrefix uri) as [-> | ->]; [reflexivity|].
    now rewrite Bool.andb_false_r. }
  unfold parseURL in H.
  destruct (urlParse w (prepare uri)) as [u0|]; [|discriminate].
  exists u0. split; [reflexivity|].
  destruct (String.eqb_spec (Scheme u0) "") as [E|E];
    injection H as <-; cbn; repeat split; try contradiction; try congruence.
  intros _. destruct (negb (GoStrings.HasSuffix (Host u0) ":80")); auto.
Qed.

(** [http://example.com:443] stays [http], [https://example.com:80]
    stays [https]. *)
Lemma parseURL_scheme_never_empty_witness :
  parseURL schemeWorld "https://example.com:80"
    = Some (mkURL "https" "example.com:80" "" "") /\
  Scheme (mkURL "https" "example.com:80" "" "") <> "" /\
  parseURL schemeWorld "http://example.com:443"
    = Some (mkURL "http" "example.com:443" "" "").
Proof.
  assert (E : parseURL schemeWorld "https://example.com:80"
              = Some (mkURL "https" "example.com:80" "" ""))
    by (vm_compute; reflexivity).
  split; [exact E|].
  split; [exact (proj1 (parseURL_scheme_never_empty _ _ _ E))|].
  vm_compute; reflexivity.
Defined.

End ParseURLFacts.

(** ** The TLS configuration and the [Host] header *)

Module SetupFacts.

Import Visit Transport RequestFacts.

(** The host of [host:port], as [visit] computes it for [ServerName]. *)
Definition hostPart (w : World) (h : string) : string :=
  match SplitHostPort w h with
  | Some x => x
  | None => h
  end.

(** [net.SplitHostPort] on the hosts of the examples: the text before
    the last colon when digits follow it. *)
Fixpoint beforeLastColon (host : string) : option string :=
  match host with
  | EmptyString => None
  | String c host' =>
      match beforeLastColon host' with
      | Some t => Some (String c t)
      | None => if Ascii.eqb c ":"%char then Some "" else None
      end
  end.

Definition splitWorld : World :=
  {| ParseMediaType := fun _ => None;
     osCreate := fun _ => true;
     osOpen := fun _ => true;
     osWriteErr := fun _ => false;
     NoColor := true;
     ReadFile := fun _ => None;
     CertsFromPEM := fun _ => [];
     KeyPairFromPEM := fun _ => None;
     SplitHostPort := beforeLastColon;
     ConfigureHTTP2 := true;
     urlParse := fun _ => None;
     NewRequestOk := fun _ _ => true;
     clientDo := fun _ _ => None |}.

(** [-k -H 'Host: internal.example:8443'] *)
Definition flagsVhost : Flags :=
  {| httpMethod := "GET"; postBody := ""; followRedirects := false;
     insecure := true;
     httpHeaders := ["Host: internal.example:8443"];
     saveOutput := false;
     outputFile := ""; clientCertFile := ""; cacert := "";
     jsonOutput := false; numRequests := 1; requestDelay := 3000000000 |}.

(** The server name of the TLS configuration follows the [Host] header:
    it is the host part of the last [Host] header given with [-H], and of
    the URL's host only when there is none.  The configuration exists for
    the scheme [https] alone, and it skips verification exactly under
    [-k]. *)
Theorem server_name_follows_host_header fl w url req ws cfg :
  newRequest fl w url = inr req ->
  configure fl w url req = Configured ws (Some cfg) ->
  exists kvs,
    parseAll (httpHeaders fl) = Some kvs /\
    ServerName cfg = hostPart w (hostOf kvs (Host url)) /\
    InsecureSkipVerify cfg = insecure fl /\
    Scheme url = "https".
Proof.
  intros Hreq Hcfg.
  destruct (newRequest_parsed fl w url req Hreq) as (kvs & Hk & ->).
  exists kvs. split; [exact Hk|].
  unfold configure in Hcfg. cbn [reqHost] in Hcfg.
  destruct (String.eqb_spec (Scheme url) "https") as [Es|Es];
    [|discriminate].
  destruct (readClientCert w (clientCertFile fl)) as [cert [err|]];
    [discriminate|].
  destruct (readCACerts w (cacert fl)) as [rootCAs err].
  destruct (ConfigureHTTP2 w); [|discriminate].
  injection Hcfg as _ <-. cbn. repeat split. exact Es.
Qed.

(** With [-H 'Host: internal.example:8443'] the server name asked of
    [https://example.com/] is [internal.example]. *)
Lemma server_name_follows_host_header_witness :
  exists req ws cfg,
    newRequest flagsVhost splitWorld Body.root = inr req /\
    configure flagsVhost splitWorld Body.root req = Configured ws (Some cfg) /\
    ServerName cfg = "internal.example".
Proof.
  destruct (newRequest flagsVhost splitWorld Body.root) as [why|req] eqn:Er;
    [vm_compute in Er; discriminate|].
  destruct (configure flagsVhost splitWorld Body.root req)
    as [ws [cfg|]|ws msg] eqn:Ec;
    [| vm_compute in Er; injection Er as <-; vm_compute in Ec; discriminate
     | vm_compute in Er; injection Er as <-; vm_compute in Ec; discriminate].
  exists req, ws, cfg. split; [reflexivity|]. split; [exact Ec|].
  destruct (server_name_follows_host_header _ _ _ _ _ _ Er Ec)
    as (kvs & Hk & Hs & _).
  vm_compute in Hk. injection Hk as <-. exact Hs.
Defined.

End SetupFacts.

(** ** [main]: from the command line to [visit] *)

Module MainFlow.

(** The flags that only [main] and the dialer read, and the arguments
    that are left when [flag.Parse] has taken the flags. *)
Record CommandLine : Type := mkCommandLine {
  showVersion : bool;
  fourOnly : bool;
  sixOnly : bool;
  onlyHeader : bool;
  args : list string
}.

(** How [main] ends: [os.Exit] with a status, [log.Fatal], or the end
    of [visit]. *)
Inductive Ending : Type :=
| Exit (status : Z)
| LogFatal (msg : string)
| Visited (r : Visit.Outcome * Visit.State).

(** The assignment [httpMethod = "HEAD"]. *)
Definition set_httpMethod (m : string) (fl : Flags) : Flags :=
  {| httpMethod := m; postBody := postBody fl;
     followRedirects := followRedirects fl; insecure := insecure fl;
     httpHeaders := httpHeaders fl; saveOutput := saveOutput fl;
     outputFile := outputFile fl; clientCertFile := clientCertFile fl;
     cacert := cacert fl; jsonOutput := jsonOutput fl;
     numRequests := numRequests fl; requestDelay := requestDelay fl |}.

(** The flags as [visit] finds them. *)
Definition effective (cl : CommandLine) (fl : Flags) : Flags :=
  if onlyHeader cl then set_httpMethod "HEAD" fl else fl.

(** [(httpMethod == "POST" || httpMethod == "PUT") && postBody == ""] *)
Definition bodyMissing (fl : Flags) : bool :=
  ((httpMethod fl =? "POST")%string || (httpMethod fl =? "PUT")%string)
  && (postBody fl =? "")%string.

(** [func main()], once [flag.Parse] has filled the flags. *)
Definition main (cl : CommandLine) (fl : Flags) (w : World) : Ending :=
  if showVersion cl then Exit 0
  else if fourOnly cl && sixOnly cl then Exit (-1)
  else
    match args cl with
    | [a] =>
        if bodyMissing fl
        then LogFatal "must supply post body using -d when POST or PUT is used"
        else
          match ParseURL.parseURL w a with
          | None => LogFatal "could not parse url"
          | Some url => Visited (Visit.run (effective cl fl) w url)
          end
    | _ => Exit 2
    end.

(** [httpstat -I -O -L -n 2 -X POST -d x a.test] *)
Definition headLine : CommandLine :=
  {| showVersion := false; fourOnly := false; sixOnly := false;
     onlyHeader := true; args := ["a.test"] |}.

Definition flagsPostO : Flags :=
  {| httpMethod := "POST"; postBody := "x"; followRedirects := true;
     insecure := false; httpHeaders := []; saveOutput := true;
     outputFile := ""; clientCertFile := ""; cacert := "";
     jsonOutput := false; numRequests := 2; requestDelay := 3000000000 |}.

(** The network of [Visit.redirectingWorld], with a parser for the
    targets of the examples. *)
Definition namedWorld : World :=
  {| ParseMediaType := ParseMediaType Visit.redirectingWorld;
     osCreate := osCreate Visit.redirectingWorld;
     osOpen := osOpen Visit.redirectingWorld;
     osWriteErr := osWriteErr Visit.redirectingWorld;
     NoColor := NoColor Visit.redirectingWorld;
     ReadFile := ReadFile Visit.redirectingWorld;
     CertsFromPEM := CertsFromPEM Visit.redirectingWorld;
     KeyPairFromPEM := KeyPairFromPEM Visit.redirectingWorld;
     SplitHostPort := SplitHostPort Visit.redirectingWorld;
     ConfigureHTTP2 := ConfigureHTTP2 Visit.redirectingWorld;
     urlParse := ParseURL.parseHostOnly;
     NewRequestOk := NewRequestOk Visit.redirectingWorld;
     clientDo := clientDo Visit.redirectingWorld |}.

(** When [main] gets as far as [visit], there was one argument, it
    parsed to a URL that has a scheme, and a [POST] or [PUT] came with a
    body; under [-I] the run is a [HEAD] run whatever [-X] said, and
    touches no response body. *)
Theorem main_visit fl cl w r :
  main cl fl w = Visited r ->
  (exists a url,
     args cl = [a] /\ ParseURL.parseURL w a = Some url /\
     Scheme url <> "" /\
     r = Visit.run (effective cl fl) w url) /\
  (httpMethod fl = "POST" \/ httpMethod fl = "PUT" -> postBody fl <> "") /\
  (onlyHeader cl = true ->
   httpMethod (effective cl fl) = "HEAD" /\
   Forall (fun e => VisitFacts.isBodyIO e = false) (Visit.trace (snd r))).
Proof.
  unfold main. intros H.
  destruct (showVersion cl); [discriminate|].
  destruct (fourOnly cl && sixOnly cl); [discriminate|].
  destruct (args cl) as [|a [|b l]]; try discriminate.
  destruct (bodyMissing fl) eqn:Eb; [discriminate|].
  destruct (ParseURL.parseURL w a) as [url|] eqn:Eu; [|discriminate].
  injection H as <-. split; [|split].
  - exists a, url. repeat split; auto.
    exact (ParseURLFacts.parseURL_Some_scheme w a url Eu).
  - unfold bodyMissing in Eb. intros [Hm|Hm] Hb;
      rewrite Hm, Hb in Eb; discriminate.
  - intros HI. unfold effective. rewrite HI. split; [reflexivity|].
    apply (VisitFacts.visit_noBody (set_httpMethod "HEAD" fl) w eq_refl).
    constructor.
Qed.

(** [-I -O -L -n 2 -X POST -d x a.test]: six requests on the way
    through the redirects, and no file. *)
Lemma main_visit_witness :
  exists r,
    main headLine flagsPostO namedWorld = Visited r /\
    Visit.requests (snd r) = 6%nat /\
    Forall (fun e => VisitFacts.isBodyIO e = false) (Visit.trace (snd r)).
Proof.
  destruct (main headLine flagsPostO namedWorld) as [c|msg|r] eqn:E;
    [vm_compute in E; discriminate | vm_compute in E; discriminate |].
  exists r. split; [reflexivity|].
  destruct (main_visit _ _ _ _ E) as (_ & _ & Hh).
  split; [|exact (proj2 (Hh eq_refl))].
  vm_compute in E. injection E as <-. reflexivity.
Defined.

End MainFlow.

(** ** The diagram of the program's two templates: when it prints and
    when it panics *)

Module DiagramFacts.

Import Template TemplateFacts.

(** A placeholder [%], its direction and its name, with the text that
    follows it up to the next placeholder. *)
Record Slot : Type := mkSlot {
  sdir : ascii;
  sname : bytes;
  stext : bytes
}.

Definition flat1 (s : Slot) : bytes :=
  ("%"%char :: sdir s :: sname s ++ stext s)%list.

Fixpoint flat (slots : list Slot) : bytes :=
  match slots with
  | [] => []
  | s :: rest => (flat1 s ++ flat rest)%list
  end.

(** The inner loop of [printTemplate] stops in front of this text. *)
Definition stops (l : bytes) : bool :=
  match l with
  | [] => true
  | c :: _ => negb (isLetter c)
  end.

Definition wfSlot (s : Slot) : bool :=
  forallb isLetter (sname s) && (percents (stext s) =? 0)%nat
  && stops (stext s).

(** A template cut into the text before the first [%] and its slots. *)
Fixpoint untilPercent (b : bytes) : bytes * bytes :=
  match b with
  | [] => ([], [])
  | c :: r =>
      if isPercent c then ([], b)
      else let (t, rest) := untilPercent r in (c :: t, rest)
  end.

Fixpoint slotsOf (fuel : nat) (b : bytes) : list Slot :=
  match fuel, b with
  | S fuel', _ :: d :: r =>
      let (n, r1) := splitName r in
      let (t, r2) := untilPercent r1 in
      mkSlot d n t :: slotsOf fuel' r2
  | _, _ => []
  end.

Definition cut (tmpl : string) : bytes * list Slot :=
  let (lead, rest) := untilPercent (list_ascii_of_string tmpl) in
  (lead, slotsOf (String.length tmpl) rest).

(** The width of a value as it is printed, with its unit. *)
Definition width (val : Z) : nat := String.length (Itoa val ++ "ms").

Definition span (s : Slot) : nat := (2 + List.length (sname s))%nat.

(** What the loop of [printTemplate] makes of the slots, one turn per
    slot, when [done] is the buffer before the first of them: the printed
    bytes or the panic.  [None] when a value written from its slot's
    start reaches beyond the slot's own text into the next slot. *)
Fixpoint render (noColor : bool) (vars : Timing) (done : bytes)
                (slots : list Slot) : option (bytes + string) :=
  match slots with
  | [] => Some (inl done)
  | s :: rest =>
      match FieldByName vars (string_of_list_ascii (sname s)) with
      | None =>
          Some (inr ("invalid template variable: "
                     ++ string_of_list_ascii (sname s)))
      | Some val =>
          let v := CyanString noColor (Itoa val ++ "ms") in
          let end_ := (List.length done + span s)%nat in
          if Ascii.eqb (sdir s) ">"%char then
            if (width val <=? end_)%nat then
              render noColor vars
                (firstn (end_ - width val)
                        (done ++ repeat " "%char (span s))
                 ++ v ++ stext s)%list rest
            else Some (inr "slice bounds out of range")
          else if Ascii.eqb (sdir s) "<"%char then
            if (width val <=? span s + List.length (stext s))%nat then
              render noColor vars
                (done ++ v
                 ++ skipn (width val) (repeat " "%char (span s) ++ stext s))%list
                rest
            else
              match rest with
              | [] => Some (inr "slice bounds out of range")
              | _ :: _ => None
              end
          else Some (inr ("invalid direction: " ++ String (sdir s) EmptyString))
      end
  end.

(** The slots have room for values of [w] bytes, when the first of them
    stands at offset [off] or later: a [>] value may reach back to the
    start of the buffer, a [<] value to the end of its slot's text. *)
Fixpoint roomy (w off : nat) (slots : list Slot) : bool :=
  match slots with
  | [] => true
  | s :: rest =>
      ((Ascii.eqb (sdir s) ">"%char && (w <=? off + span s)%nat)
       || (negb (Ascii.eqb (sdir s) ">"%char) && Ascii.eqb (sdir s) "<"%char
           && (w <=? span s + List.length (stext s))%nat))
      && roomy w (off + span s + List.length (stext s)) rest
  end.

(** The names of the slots are fields of [Timing], and their values
    are at most [w] bytes wide. *)
Definition narrow (w : nat) (vars : Timing) (s : Slot) : Prop :=
  exists val,
    FieldByName vars (string_of_list_ascii (sname s)) = Some val /\
    (width val <= w)%nat.

(** The values of a [Timing]: all but [Total], and all ten. *)
Definition others (vars : Timing) : list Z :=
  [DNS vars; TCP vars; TLS vars; Server vars; Transfer vars;
   Lookup vars; Connect vars; PreTransfer vars; StartTransfer vars].

Definition fields (vars : Timing) : list Z := Total vars :: others vars.

(** The name is a field of [Timing]; it is one other than [Total]. *)
Definition isField (n : bytes) : bool :=
  match FieldByName fixedTiming (string_of_list_ascii n) with
  | Some _ => true
  | None => false
  end.

Definition isOther (n : bytes) : bool :=
  isField n && negb (string_of_list_ascii n =? "Total")%string.

(** The bytes a template's slots take. *)
Fixpoint extent (slots : list Slot) : nat :=
  match slots with
  | [] => 0
  | s :: rest => (span s + List.length (stext s) + extent rest)%nat
  end.

(** The template is its slots, all of them well formed. *)
Definition cutsWell (tmpl : string) : bool :=
  let (lead, slots) := cut tmpl in
  (string_of_list_ascii (lead ++ flat slots) =? tmpl)%string
  && (percents lead =? 0)%nat
  && forallb wfSlot slots
  && (List.length slots <=? String.length tmpl)%nat.

(** Every slot of the template names a field and has room for a value
    of [w] bytes. *)
Definition hasRoom (w : nat) (tmpl : string) : bool :=
  let (lead, slots) := cut tmpl in
  cutsWell tmpl
  && forallb (fun s => isField (sname s)) slots
  && roomy w (List.length lead) slots.

(** The same of every slot but the last; the last is [%<Total], and
    from its [%] to the end of the template there are no more than [w]
    bytes. *)
Definition endsInTotal (w : nat) (tmpl : string) : bool :=
  let (lead, slots) := cut tmpl in
  let l := last slots (mkSlot " "%char [] []) in
  cutsWell tmpl
  && negb (List.length slots =? 0)%nat
  && forallb (fun s => isOther (sname s)) (removelast slots)
  && roomy w (List.length lead) (removelast slots)
  && Ascii.eqb (sdir l) "<"%char
  && (string_of_list_ascii (sname l) =? "Total")%string
  && (span l + List.length (stext l) <=? w)%nat.

(** *** One turn of the loop on a buffer cut into slots *)

Lemma firstn_app_exact {A} (l r : list A) :
  firstn (List.length l) (l ++ r) = l.
Proof. induction l as [|x l IH]; simpl; [now destruct r | now rewrite IH]. Qed.

Lemma skipn_app_plus {A} (l r : list A) k :
  skipn (List.length l + k) (l ++ r) = skipn k r.
Proof. induction l as [|x l IH]; simpl; [reflexivity | exact IH]. Qed.

Lemma firstn_app_short {A} (l r : list A) k :
  (k <= List.length l)%nat -> firstn k (l ++ r) = firstn k l.
Proof.
  intros H. rewrite firstn_app.
  replace (k - List.length l)%nat with 0%nat by lia.
  now rewrite firstn_O, app_nil_r.
Qed.

Lemma skipn_app_short {A} (l r : list A) k :
  (k <= List.length l)%nat -> skipn k (l ++ r) = (skipn k l ++ r)%list.
Proof.
  intros H. rewrite skipn_app.
  replace (k - List.length l)%nat with 0%nat by lia. reflexivity.
Qed.

Lemma nth_error_app_plus {A} (l r : list A) k :
  nth_error (l ++ r) (List.length l + k) = nth_error r k.
Proof. induction l as [|x l IH]; simpl; [reflexivity | exact IH]. Qed.

Lemma scanName_stop n : forall l e,
  forallb isLetter n = true -> stops l = true ->
  scanName (n ++ l)%list e = (e + List.length n)%nat.
Proof.
  induction n as [|c n IH]; intros l e Hn Hl; simpl.
  - destruct l as [|c l]; simpl in *; [lia|].
    apply Bool.negb_true_iff in Hl. rewrite Hl. lia.
  - simpl in Hn. apply Bool.andb_true_iff in Hn. destruct Hn as [Hc Hn].
    rewrite Hc, (IH l (S e) Hn Hl). lia.
Qed.

Lemma IndexByte_free done : forall rest,
  percents done = 0%nat ->
  IndexByte (done ++ "%"%char :: rest)%list "%"%char = Some (List.length done).
Proof.
  induction done as [|c done IH]; intros rest H; [reflexivity|].
  unfold percents in H. cbn [filter] in H. unfold isPercent at 1 in H.
  simpl. destruct (Ascii.eqb c "%"%char); [discriminate H|].
  now rewrite (IH rest H).
Qed.

Lemma IndexByte_free_None done :
  percents done = 0%nat -> IndexByte done "%"%char = None.
Proof.
  induction done as [|c done IH]; intros H; [reflexivity|].
  unfold percents in H. cbn [filter] in H. unfold isPercent at 1 in H.
  simpl. destruct (Ascii.eqb c "%"%char); [discriminate H|].
  now rewrite (IH H).
Qed.

Lemma width_length val :
  width val = List.length (list_ascii_of_string (Itoa val ++ "ms")).
Proof. unfold width. now rewrite length_list_ascii_of_string. Qed.

Lemma substitute_slot noColor vars done d name tail :
  forallb isLetter name = true -> stops tail = true ->
  substitute noColor vars (done ++ "%"%char :: d :: name ++ tail)%list
             (List.length done) =
  match FieldByName vars (string_of_list_ascii name) with
  | None => inr ("invalid template variable: " ++ string_of_list_ascii name)
  | Some val =>
      let v := CyanString noColor (Itoa val ++ "ms") in
      let sp := (2 + List.length name)%nat in
      let end_ := (List.length done + sp)%nat in
      if Ascii.eqb d ">"%char then
        if (width val <=? end_)%nat
        then inl (firstn (end_ - width val) (done ++ repeat " "%char sp)
                  ++ v ++ tail)%list
        else inr "slice bounds out of range"
      else if Ascii.eqb d "<"%char then
        if (width val <=? sp + List.length tail)%nat
        then inl (done ++ v ++ skipn (width val) (repeat " "%char sp ++ tail))%list
        else inr "slice bounds out of range"
      else inr ("invalid direction: " ++ String d EmptyString)
  end.
Proof.
  intros Hn Ht. unfold substitute.
  set (b := (done ++ "%"%char :: d :: name ++ tail)%list).
  set (idx := List.length done).
  assert (Hdir : nth_error b (idx + 1) = Some d)
    by (unfold b, idx; now rewrite nth_error_app_plus).
  assert (Hskip : skipn (idx + 2) b = (name ++ tail)%list)
    by (unfold b, idx; now rewrite skipn_app_plus).
  rewrite Hdir, Hskip, (scanName_stop name tail (idx + 2) Hn Ht).
  set (e := (idx + 2 + List.length name)%nat).
  assert (Hslice : slice b (idx + 2) e = name).
  { unfold slice. rewrite Hskip. unfold e.
    replace (idx + 2 + List.length name - (idx + 2))%nat
      with (List.length name) by lia.
    apply firstn_app_exact. }
  rewrite Hslice.
  destruct (FieldByName vars (string_of_list_ascii name)) as [val|];
    [|reflexivity].
  assert (Hpre : firstn idx b = done)
    by (unfold b, idx; apply firstn_app_exact).
  assert (Hsuf : skipn e b = tail).
  { unfold e. replace (idx + 2 + List.length name)%nat
      with (idx + 2 + List.length name + 0)%nat by lia.
    rewrite <- Nat.add_assoc, <- Nat.add_assoc.
    unfold b, idx. rewrite skipn_app_plus. cbn [Nat.add skipn].
    replace (List.length name + 0)%nat with (List.length name + 0)%nat by lia.
    now rewrite skipn_app_plus. }
  rewrite Hpre, Hsuf.
  replace (e - idx)%nat with (2 + List.length name)%nat by (unfold e; lia).
  fold (width val).
  set (sp := (2 + List.length name)%nat).
  set (blank := repeat " "%char sp).
  assert (Hbl : List.length (done ++ blank)%list = e)
    by (rewrite length_app; unfold blank; rewrite repeat_length;
        unfold e, sp, idx; lia).
  cbv zeta.
  replace (idx + sp)%nat with e by (unfold e, sp; lia).
  destruct (Ascii.eqb d ">"%char).
  - destruct (Nat.leb_spec (width val) e) as [Hfit|]; [|reflexivity].
    f_equal. rewrite (app_assoc done blank tail).
    rewrite firstn_app_short by lia.
    rewrite <- Hbl at 2.
    replace (List.length (done ++ blank)%list)
      with (List.length (done ++ blank)%list + 0)%nat by lia.
    now rewrite skipn_app_plus.
  - destruct (Ascii.eqb d "<"%char); [|reflexivity].
    rewrite !length_app. unfold blank at 1. rewrite repeat_length.
    fold idx.
    destruct (Nat.leb_spec (width val) (sp + List.length tail)) as [Hfit|Hno].
    + destruct (Nat.leb_spec (idx + width val)
                             (idx + (sp + List.length tail))) as [_|]; [|lia].
      f_equal. unfold idx at 1. rewrite firstn_app_exact.
      unfold idx. now rewrite skipn_app_plus.
    + destruct (Nat.leb_spec (idx + width val)
                             (idx + (sp + List.length tail))) as [|_]; [lia|].
      reflexivity.
Qed.

Lemma stops_tail s rest :
  wfSlot s = true -> stops (stext s ++ flat rest)%list = true.
Proof.
  unfold wfSlot. intros H.
  apply Bool.andb_true_iff in H. destruct H as [_ H].
  destruct (stext s) as [|c t]; [|exact H].
  destruct rest as [|r rest]; reflexivity.
Qed.

Lemma percents_firstn k b : percents b = 0%nat -> percents (firstn k b) = 0%nat.
Proof. intros H. pose proof (percents_split k b). lia. Qed.

Lemma percents_skipn k b : percents b = 0%nat -> percents (skipn k b) = 0%nat.
Proof. intros H. pose proof (percents_split k b). lia. Qed.

(** The loop of [printTemplate] does what [render] says. *)
Lemma render_sound noColor vars : forall slots done r fuel,
  percents done = 0%nat ->
  forallb wfSlot slots = true ->
  render noColor vars done slots = Some r ->
  (List.length slots <= fuel)%nat ->
  substituteAll fuel noColor vars (done ++ flat slots)%list =
    match r with
    | inl out => Printed (string_of_list_ascii out)
    | inr msg => Panic msg
    end.
Proof.
  induction slots as [|s rest IH]; intros done r fuel Hd Hwf Hr Hfuel.
  - simpl in Hr. injection Hr as <-. simpl. rewrite app_nil_r.
    destruct fuel; simpl; now rewrite (IndexByte_free_None done Hd).
  - destruct fuel as [|fuel]; [simpl in Hfuel; lia|].
    simpl in Hwf. apply Bool.andb_true_iff in Hwf. destruct Hwf as [Hs Hrest].
    assert (Hs' := Hs). unfold wfSlot in Hs'.
    apply Bool.andb_true_iff in Hs'. destruct Hs' as [Hs' _].
    apply Bool.andb_true_iff in Hs'. destruct Hs' as [Hname Htext].
    apply Nat.eqb_eq in Htext.
    assert (Hb : (done ++ flat (s :: rest))%list =
                 (done ++ "%"%char :: sdir s
                       :: sname s ++ stext s ++ flat rest)%list).
    { cbn [flat flat1]. f_equal. simpl. f_equal. f_equal.
      now rewrite <- app_assoc. }
    rewrite Hb. clear Hb.
    cbn [substituteAll]. rewrite (IndexByte_free done _ Hd).
    rewrite (substitute_slot noColor vars done (sdir s) (sname s)
               (stext s ++ flat rest)%list Hname (stops_tail s rest Hs)).
    cbn [render] in Hr. fold (span s) in *.
    destruct (FieldByName vars (string_of_list_ascii (sname s))) as [val|];
      [|now injection Hr as <-].
    cbv zeta in *.
    pose proof (percents_value noColor val) as Hv.
    destruct (Ascii.eqb (sdir s) ">"%char).
    + destruct (width val <=? List.length done + span s)%nat;
        [|now injection Hr as <-].
      rewrite !app_assoc. rewrite <- (app_assoc _ _ (stext s)).
      apply IH; auto; [|simpl in Hfuel; lia].
      rewrite !percents_app, Hv, Htext, percents_firstn; [reflexivity|].
      now rewrite percents_app, percents_repeat, Hd.
    + destruct (Ascii.eqb (sdir s) "<"%char); [|now injection Hr as <-].
      rewrite length_app.
      destruct (Nat.leb_spec (width val) (span s + List.length (stext s)))
        as [Hfit|Hno].
      * destruct (Nat.leb_spec (width val)
                    (span s + (List.length (stext s) + List.length (flat rest))))
          as [_|]; [|lia].
        rewrite (app_assoc (repeat " "%char (span s)) (stext s) (flat rest)).
        rewrite skipn_app_short by (rewrite length_app, repeat_length; lia).
        rewrite (app_assoc _ _ (flat rest)), (app_assoc done _ (flat rest)).
        apply IH; auto; [|simpl in Hfuel; lia].
        rewrite !percents_app, Hv, Hd, percents_skipn; [reflexivity|].
        now rewrite percents_app, percents_repeat, Htext.
      * destruct rest as [|s2 rest]; [|discriminate].
        injection Hr as <-. cbn [flat List.length]. rewrite Nat.add_0_r.
        destruct (Nat.leb_spec (width val) (span s + List.length (stext s)));
          [lia | reflexivity].
Qed.

(** *** Slots with room *)

Lemma CyanString_length noColor v :
  (String.length v <= List.length (CyanString noColor v))%nat.
Proof.
  unfold CyanString. destruct noColor.
  - now rewrite length_list_ascii_of_string.
  - rewrite !length_app, length_list_ascii_of_string. lia.
Qed.

Lemma render_front noColor vars w : forall front done off tail,
  (off <= List.length done)%nat ->
  roomy w off front = true ->
  Forall (narrow w vars) front ->
  exists done',
    render noColor vars done (front ++ tail) = render noColor vars done' tail /\
    (off + extent front <= List.length done')%nat.
Proof.
  induction front as [|s front IH]; intros done off tail Hoff Hroom Hn.
  - exists done. split; [reflexivity|]. simpl. lia.
  - inversion Hn as [|? ? (val & Hval & Hw) Hn']; subst.
    cbn [roomy] in Hroom. apply Bool.andb_true_iff in Hroom.
    destruct Hroom as [Hs Hroom].
    pose proof (CyanString_length noColor (Itoa val ++ "ms")) as Hc.
    fold (width val) in Hc.
    change ((s :: front) ++ tail)%list with (s :: front ++ tail)%list.
    cbn [render extent]. rewrite Hval. cbv zeta.
    destruct (Ascii.eqb (sdir s) ">"%char); cbn [andb orb negb] in Hs.
    + rewrite Bool.orb_false_r in Hs. apply Nat.leb_le in Hs.
      destruct (Nat.leb_spec (width val) (List.length done + span s));
        [|lia].
      destruct (IH (firstn (List.length done + span s - width val)
                           (done ++ repeat " "%char (span s))
                    ++ CyanString noColor (Itoa val ++ "ms") ++ stext s)%list
                   (off + span s + List.length (stext s))%nat tail)
        as (done' & -> & Hlen); auto.
      * rewrite !length_app, length_firstn, length_app, repeat_length. lia.
      * exists done'. split; [reflexivity | lia].
    + apply Bool.andb_true_iff in Hs. destruct Hs as [Hd Hs].
      rewrite Hd. apply Nat.leb_le in Hs.
      destruct (Nat.leb_spec (width val) (span s + List.length (stext s)));
        [|lia].
      destruct (IH (done ++ CyanString noColor (Itoa val ++ "ms")
                    ++ skipn (width val)
                             (repeat " "%char (span s) ++ stext s))%list
                   (off + span s + List.length (stext s))%nat tail)
        as (done' & -> & Hlen); auto.
      * rewrite !length_app, length_skipn, length_app, repeat_length. lia.
      * exists done'. split; [reflexivity | lia].
Qed.

Lemma FieldByName_known vars n :
  isField n = true ->
  exists val, FieldByName vars (string_of_list_ascii n) = Some val /\
              In val (fields vars).
Proof.
  unfold isField, FieldByName, fields, others.
  repeat (destruct (_ =? _)%string;
          [intros _; eexists; split; [reflexivity|simpl; tauto]|]).
  discriminate.
Qed.

Lemma FieldByName_other vars n :
  isOther n = true ->
  exists val, FieldByName vars (string_of_list_ascii n) = Some val /\
              In val (others vars).
Proof.
  unfold isOther, isField, FieldByName, others. intros H.
  apply Bool.andb_true_iff in H. destruct H as [H Ht].
  apply Bool.negb_true_iff in Ht. rewrite Ht in *. clear Ht. revert H.
  repeat (destruct (_ =? _)%string;
          [intros _; eexists; split; [reflexivity|simpl; tauto]|]).
  discriminate.
Qed.

Lemma narrow_fields w vars slots :
  Forall (fun val => (width val <= w)%nat) (fields vars) ->
  forallb (fun s => isField (sname s)) slots = true ->
  Forall (narrow w vars) slots.
Proof.
  intros Hw Hs. apply Forall_forall. intros s Hin.
  rewrite forallb_forall in Hs. specialize (Hs s Hin).
  destruct (FieldByName_known vars _ Hs) as (val & Hval & Hv).
  exists val. split; [exact Hval|].
  rewrite Forall_forall in Hw. now apply Hw.
Qed.

Lemma narrow_others w vars slots :
  Forall (fun val => (width val <= w)%nat) (others vars) ->
  forallb (fun s => isOther (sname s)) slots = true ->
  Forall (narrow w vars) slots.
Proof.
  intros Hw Hs. apply Forall_forall. intros s Hin.
  rewrite forallb_forall in Hs. specialize (Hs s Hin).
  destruct (FieldByName_other vars _ Hs) as (val & Hval & Hv).
  exists val. split; [exact Hval|].
  rewrite Forall_forall in Hw. now apply Hw.
Qed.

Lemma cutsWell_spec tmpl lead slots :
  cut tmpl = (lead, slots) -> cutsWell tmpl = true ->
  list_ascii_of_string tmpl = (lead ++ flat slots)%list /\
  percents lead = 0%nat /\ forallb wfSlot slots = true /\
  (List.length slots <= String.length tmpl)%nat.
Proof.
  unfold cutsWell. intros ->. intros H.
  apply Bool.andb_true_iff in H. destruct H as [H Hlen].
  apply Bool.andb_true_iff in H. destruct H as [H Hwf].
  apply Bool.andb_true_iff in H. destruct H as [Heq Hp].
  apply String.eqb_eq in Heq. apply Nat.eqb_eq in Hp. apply Nat.leb_le in Hlen.
  repeat split; auto.
  now rewrite <- Heq, list_ascii_of_string_of_list_ascii.
Qed.

(** A template whose slots have room for [w] bytes is printed whenever
    no value is wider. *)
Lemma roomy_prints noColor vars w tmpl :
  hasRoom w tmpl = true ->
  Forall (fun val => (width val <= w)%nat) (fields vars) ->
  exists s, printTemplate noColor tmpl vars = Printed s.
Proof.
  unfold hasRoom. destruct (cut tmpl) as [lead slots] eqn:Ecut. intros H Hw.
  apply Bool.andb_true_iff in H. destruct H as [H Hroom].
  apply Bool.andb_true_iff in H. destruct H as [Hcut Hnames].
  destruct (cutsWell_spec tmpl lead slots Ecut Hcut)
    as (Hb & Hlead & Hwf & Hlen).
  destruct (render_front noColor vars w slots lead (List.length lead) []
              (le_n _) Hroom (narrow_fields w vars slots Hw Hnames))
    as (done' & Hr & _).
  rewrite app_nil_r in Hr. cbn [render] in Hr.
  exists (string_of_list_ascii done'). unfold printTemplate. rewrite Hb.
  exact (render_sound noColor vars slots lead (inl done') _ Hlead Hwf Hr Hlen).
Qed.

(** A template that ends in [%<Total] with no more than [w] bytes from
    there on panics when the total is wider, the other values being no
    wider than [w]. *)
Lemma wide_total_panics noColor vars w tmpl :
  endsInTotal w tmpl = true ->
  Forall (fun val => (width val <= w)%nat) (others vars) ->
  (w < width (Total vars))%nat ->
  printTemplate noColor tmpl vars = Panic "slice bounds out of range".
Proof.
  unfold endsInTotal. destruct (cut tmpl) as [lead slots] eqn:Ecut.
  intros H Hw Htot.
  repeat (let Hx := fresh "Hx" in
          apply Bool.andb_true_iff in H; destruct H as [H Hx]).
  rename Hx into Hspan, Hx0 into Hname, Hx1 into Hdir, Hx2 into Hroom,
         Hx3 into Hnames, Hx4 into Hne.
  destruct (cutsWell_spec tmpl lead slots Ecut H)
    as (Hb & Hlead & Hwf & Hlen).
  apply Bool.negb_true_iff, Nat.eqb_neq in Hne.
  assert (Hslots : slots <> []) by (intros ->; now apply Hne).
  set (l := last slots (mkSlot " "%char [] [])) in *.
  pose proof (app_removelast_last (mkSlot " "%char [] []) Hslots) as Hsplit.
  fold l in Hsplit.
  destruct (render_front noColor vars w (removelast slots) lead
              (List.length lead) [l] (le_n _) Hroom
              (narrow_others w vars _ Hw Hnames))
    as (done' & Hr & _).
  rewrite <- Hsplit in Hr.
  apply String.eqb_eq in Hname. apply Nat.leb_le in Hspan.
  assert (Hgt : Ascii.eqb (sdir l) ">"%char = false).
  { apply Ascii.eqb_eq in Hdir. now rewrite Hdir. }
  cbn [render] in Hr. rewrite Hname in Hr. cbn [FieldByName] in Hr.
  change (FieldByName vars "Total") with (Some (Total vars)) in Hr.
  cbv zeta in Hr. rewrite Hgt, Hdir in Hr.
  destruct (Nat.leb_spec (width (Total vars))
                         (span l + List.length (stext l))); [lia|].
  unfold printTemplate. rewrite Hb.
  exact (render_sound noColor vars slots lead _ _ Hlead Hwf Hr Hlen).
Qed.

(** *** The width of a printed value *)

Lemma length_string_of_uint d :
  String.length (DecimalString.NilEmpty.string_of_uint d)
  = Decimal.nb_digits d.
Proof. induction d; simpl; congruence. Qed.

Lemma length_string_app (a b : string) :
  String.length (a ++ b) = (String.length a + String.length b)%nat.
Proof. induction a as [|c a IH]; simpl; congruence. Qed.

(** The digits [l] read after a number [acc] give a number between
    [acc] and [acc + 1] times the power of ten of their count. *)
Lemma of_uint_acc_bounds l : forall acc,
  Z.pos acc * 10 ^ Z.of_nat (Decimal.nb_digits l)
    <= Z.pos (Pos.of_uint_acc l acc)
    < (Z.pos acc + 1) * 10 ^ Z.of_nat (Decimal.nb_digits l).
Proof.
  induction l as [|l IH|l IH|l IH|l IH|l IH|l IH|l IH|l IH|l IH|l IH];
    intros acc;
    [simpl; lia | | | | | | | | | | ];
    cbn [Decimal.nb_digits Pos.of_uint_acc];
    rewrite Nat2Z.inj_succ, Z.pow_succ_r by lia;
    match goal with
    | |- context [Pos.of_uint_acc ?d ?a] =>
        specialize (IH a);
        assert (0 < 10 ^ Z.of_nat (Decimal.nb_digits d))
          by (apply Z.pow_pos_nonneg; lia)
    end;
    nia.
Qed.

(** The decimal digits of a positive number: it lies between the
    powers of ten of their count. *)
Lemma to_uint_digits p :
  10 ^ (Z.of_nat (Decimal.nb_digits (Pos.to_uint p)) - 1) <= Z.pos p
    < 10 ^ Z.of_nat (Decimal.nb_digits (Pos.to_uint p)).
Proof.
  pose proof (DecimalPos.Unsigned.of_to p) as Hof.
  pose proof (DecimalPos.Unsigned.to_of (Pos.to_uint p)) as Hto.
  rewrite Hof in Hto. cbn [N.to_uint] in Hto.
  destruct (Pos.to_uint p) as [|l|l|l|l|l|l|l|l|l|l];
    cbn [Pos.of_uint] in Hof; try discriminate Hof.
  1: { exfalso. unfold Decimal.unorm in Hto. cbn [Decimal.nzhead] in Hto.
       pose proof (DecimalFacts.nb_digits_nzhead l) as Hn.
       destruct (Decimal.nzhead l) eqn:E; try discriminate Hto;
         injection Hto as Hl; try (subst l; discriminate Hof);
         rewrite <- Hl in Hn; cbn [Decimal.nb_digits] in Hn; lia. }
  all: injection Hof as <-;
    match goal with
    | |- context [Pos.of_uint_acc ?d ?a] =>
        pose proof (of_uint_acc_bounds d a) as Hb;
        cbn [Decimal.nb_digits];
        rewrite Nat2Z.inj_succ;
        replace (Z.succ (Z.of_nat (Decimal.nb_digits d)) - 1)
          with (Z.of_nat (Decimal.nb_digits d)) by lia;
        rewrite Z.pow_succ_r by lia;
        assert (0 < 10 ^ Z.of_nat (Decimal.nb_digits d))
          by (apply Z.pow_pos_nonneg; lia)
    end;
    nia.
Qed.

Lemma width_digits p :
  width (Z.pos p) = (Decimal.nb_digits (Pos.to_uint p) + 2)%nat.
Proof.
  unfold width, Itoa. cbn [Z.to_int DecimalString.NilEmpty.string_of_int].
  now rewrite length_string_app, length_string_of_uint.
Qed.

(** A value up to 999999 is at most eight bytes wide with its unit,
    and a value from 1000000 on is wider. *)
Lemma width_small val : 0 <= val < 1000000 -> (width val <= 8)%nat.
Proof.
  intros [H0 H1]. destruct val as [|p|p]; [vm_compute; lia| |lia].
  rewrite width_digits. pose proof (to_uint_digits p) as [Hlo _].
  destruct (Nat.le_gt_cases (Decimal.nb_digits (Pos.to_uint p)) 6) as [|Hgt];
    [lia|].
  assert (10 ^ 6 <= 10 ^ (Z.of_nat (Decimal.nb_digits (Pos.to_uint p)) - 1))
    by (apply Z.pow_le_mono_r; lia).
  change (10 ^ 6) with 1000000 in *. lia.
Qed.

Lemma width_large val : 1000000 <= val -> (8 < width val)%nat.
Proof.
  intros H. destruct val as [|p|p]; [lia| |lia].
  rewrite width_digits. pose proof (to_uint_digits p) as [_ Hhi].
  destruct (Nat.le_gt_cases (Decimal.nb_digits (Pos.to_uint p)) 6) as [Hle|];
    [|lia].
  assert (10 ^ Z.of_nat (Decimal.nb_digits (Pos.to_uint p)) <= 10 ^ 6)
    by (apply Z.pow_le_mono_r; lia).
  change (10 ^ 6) with 1000000 in *. lia.
Qed.

(** On the two templates of the program [printTemplate] prints the
    diagram, with colour or without, whenever each of the ten values is
    between 0 and 999999 ms: no slot is too narrow for them. *)
Theorem diagram_prints noColor vars :
  Forall (fun val => 0 <= val < 1000000) (fields vars) ->
  (exists s, printTemplate noColor httpsTemplate vars = Printed s) /\
  (exists s, printTemplate noColor httpTemplate vars = Printed s).
Proof.
  intros Hv.
  assert (Hw : Forall (fun val => (width val <= 8)%nat) (fields vars))
    by (eapply Forall_impl; [|exact Hv]; exact width_small).
  split.
  - apply (roomy_prints noColor vars 8 httpsTemplate); [|exact Hw].
    vm_compute. reflexivity.
  - apply (roomy_prints noColor vars 8 httpTemplate); [|exact Hw].
    vm_compute. reflexivity.
Qed.

(** A run of 999999 ms in every phase is still printed. *)
Lemma diagram_prints_witness :
  exists s, printTemplate false httpsTemplate
              (mkTiming 999999 999999 999999 999999 999999
                        999999 999999 999999 999999 999999) = Printed s.
Proof.
  apply (diagram_prints false
           (mkTiming 999999 999999 999999 999999 999999
                     999999 999999 999999 999999 999999)).
  repeat (constructor; [cbn; lia|]). constructor.
Defined.

(** On both templates [printTemplate] panics, with colour or without,
    when the total reaches 1000000 ms, the other values being below: the
    slot [%<Total] and the line feed after it are the last eight bytes of
    the template, and the value, nine bytes or more with its unit, is
    written from the start of its slot. *)
Theorem diagram_panics_on_wide_total noColor vars :
  Forall (fun val => 0 <= val < 1000000) (others vars) ->
  1000000 <= Total vars ->
  printTemplate noColor httpsTemplate vars
    = Panic "slice bounds out of range" /\
  printTemplate noColor httpTemplate vars
    = Panic "slice bounds out of range".
Proof.
  intros Hv Ht.
  assert (Hw : Forall (fun val => (width val <= 8)%nat) (others vars))
    by (eapply Forall_impl; [|exact Hv]; exact width_small).
  apply width_large in Ht.
  split.
  - apply (wide_total_panics noColor vars 8 httpsTemplate);
      [vm_compute; reflexivity | exact Hw | exact Ht].
  - apply (wide_total_panics noColor vars 8 httpTemplate);
      [vm_compute; reflexivity | exact Hw | exact Ht].
Qed.

(** A transfer that takes a quarter of an hour: the total reaches
    1000000 ms. *)
Lemma diagram_panics_on_wide_total_witness :
  printTemplate false httpTemplate
    (mkTiming 2 10 0 150 999838 2 12 12 162 1000000)
    = Panic "slice bounds out of range".
Proof.
  apply (diagram_panics_on_wide_total false
           (mkTiming 2 10 0 150 999838 2 12 12 162 1000000)).
  - repeat (constructor; [cbn; lia|]). constructor.
  - cbn. lia.
Defined.

End DiagramFacts.
